(** * tincan chat server: session manager and message router

    A shallow embedding of [internal/server/server.go] (the TCP path,
    [handleConnection] and its helpers) together with the properties of
    the session registry, the handshake, the router and the history
    buffer.

    Conventions of the embedding:
    - a Go [string] is a Rocq [string] (a sequence of bytes), [len] is
      [String.length];
    - a [net.Conn] is identified by a natural number; the registry
      [clients] is a finite map from connections to [ClientInfo];
    - every [*bufio.Writer] write+flush is recorded, in order, in the
      [wire] of the state as a pair (connection, bytes written);
    - the chat log file is the list of the entries written to it;
    - the wall clock read by [getTimestamp] is the field [now];
    - the operator's console ([log.Printf]) is not modelled;
    - the goroutines, one per connection, advance by the segments of
      [handleConnection] that lie between two blocking reads or hold one
      lock; segments that only write to connections, to the log and to
      the history are taken together with the segment before them;
    - [loadAllowedUsers] and [loadGroups] are given the lines their
      scanners yield ([None] when the file cannot be opened);
    - [handleWebSocketConnection], which never registers its client, is
      modelled beside the TCP path: a WebSocket connection is a natural
      number of its own, and every text frame written is recorded in
      [wsWire]. *)

From Stdlib Require Import Ascii String.
From stdpp Require Import gmap strings list fin_maps.

Local Open Scope string_scope.
Local Open Scope list_scope.

(** ** The parts of Go's [strings] package the server uses *)

Module Strings.

Definition chr (n : nat) : ascii := ascii_of_nat n.

Definition str (l : list nat) : string :=
  string_of_list_ascii (map chr l).

Definition NL : string := str [10].

(** [strings.HasPrefix] *)
Definition HasPrefix (s pre : string) : bool := String.prefix pre s.

(** [strings.HasSuffix]: some tail of [s] is [suf]. *)
Fixpoint HasSuffix (s suf : string) : bool :=
  if String.eqb s suf then true
  else match s with
       | EmptyString => false
       | String _ r => HasSuffix r suf
       end.

(** [strings.TrimSuffix] *)
Definition TrimSuffix (s suf : string) : string :=
  if HasSuffix s suf
  then String.substring 0 (String.length s - String.length suf) s
  else s.

(** The UTF-8 encodings of the runes for which [unicode.IsSpace] holds:
    the six ASCII blanks, U+0085, U+00A0, U+1680, U+2000..U+200A,
    U+2028, U+2029, U+202F, U+205F and U+3000. *)
Definition spaceRunes : list string :=
  map str
    [ [9]; [10]; [11]; [12]; [13]; [32];
      [194; 133]; [194; 160];
      [225; 154; 128];
      [226; 128; 128]; [226; 128; 129]; [226; 128; 130]; [226; 128; 131];
      [226; 128; 132]; [226; 128; 133]; [226; 128; 134]; [226; 128; 135];
      [226; 128; 136]; [226; 128; 137]; [226; 128; 138];
      [226; 128; 168]; [226; 128; 169]; [226; 128; 175];
      [226; 129; 159];
      [227; 128; 128] ].

Definition dropBytes (n : nat) (s : string) : string :=
  String.substring n (String.length s - n) s.

Definition takeBytes (n : nat) (s : string) : string :=
  String.substring 0 n s.

(** Length of the white-space rune [s] starts with, if any. *)
Definition leadingSpace (s : string) : option nat :=
  String.length <$> List.find (HasPrefix s) spaceRunes.

(** Length of the white-space rune [s] ends with, if any. *)
Definition trailingSpace (s : string) : option nat :=
  String.length <$> List.find (HasSuffix s) spaceRunes.

Fixpoint trimLeft (fuel : nat) (s : string) : string :=
  match fuel with
  | 0 => s
  | S fuel' =>
      match leadingSpace s with
      | Some n => trimLeft fuel' (dropBytes n s)
      | None => s
      end
  end.

Fixpoint trimRight (fuel : nat) (s : string) : string :=
  match fuel with
  | 0 => s
  | S fuel' =>
      match trailingSpace s with
      | Some n => trimRight fuel' (takeBytes (String.length s - n) s)
      | None => s
      end
  end.

(** [strings.TrimSpace]: every leading and trailing white-space rune is
    removed.  Each round removes at least one byte, so the length of the
    string is enough fuel. *)
Definition TrimSpace (s : string) : string :=
  let l := trimLeft (String.length s) s in
  trimRight (String.length l) l.

(** [strings.Cut(s, " ")]: the text before and after the first space. *)
Fixpoint cut (s : string) : option (string * string) :=
  match s with
  | EmptyString => None
  | String c r =>
      if Ascii.eqb c " "%char then Some (EmptyString, r)
      else match cut r with
           | Some (a, b) => Some (String c a, b)
           | None => None
           end
  end.

(** [strings.SplitN(s, " ", n)] for [n >= 0]: at most [n] pieces, the
    last one being the unsplit rest. *)
Fixpoint SplitN (s : string) (n : nat) : list string :=
  match n with
  | 0 => []
  | 1 => [s]
  | S n' =>
      match cut s with
      | None => [s]
      | Some (a, r) => a :: SplitN r n'
      end
  end.

(** The messages the server builds are newline terminated: the idiom
    [if !strings.HasSuffix(message, "\n") { message += "\n" }]. *)
Definition withNewline (message : string) : string :=
  if HasSuffix message NL then message else message +:+ NL.

End Strings.

Import Strings.

(** ** Constants *)

Definition USERNAME_MAX_LEN : nat := 50.
Definition MAX_HISTORY_LINES : nat := 20.

(** ** Data model *)

(** [ClientInfo]: the reader and the writer wrap [conn]; what is written
    to the writer is recorded in the [wire] of the state. *)
Record ClientInfo := {
  conn : nat;
  username : string;
  active : bool   (* true after a successful username handshake *)
}.

Record GroupInfo := {
  name : string;
  members : list string
}.

(** The package-level variables of the server. *)
Record State := {
  clients : gmap nat ClientInfo;
  allowedUsernames : gmap string bool;
  groups : gmap string GroupInfo;
  chatHistory : list string;
  chatLogFileHandler : option (list string);  (* None: the nil handle *)
  now : string;                               (* what getTimestamp returns *)
  wire : list (nat * string)                  (* bytes flushed, per connection *)
}.

Definition set_clients (m : gmap nat ClientInfo) (st : State) : State :=
  {| clients := m; allowedUsernames := allowedUsernames st;
     groups := groups st; chatHistory := chatHistory st;
     chatLogFileHandler := chatLogFileHandler st; now := now st;
     wire := wire st |}.

Definition set_chatHistory (h : list string) (st : State) : State :=
  {| clients := clients st; allowedUsernames := allowedUsernames st;
     groups := groups st; chatHistory := h;
     chatLogFileHandler := chatLogFileHandler st; now := now st;
     wire := wire st |}.

Definition set_chatLog (f : option (list string)) (st : State) : State :=
  {| clients := clients st; allowedUsernames := allowedUsernames st;
     groups := groups st; chatHistory := chatHistory st;
     chatLogFileHandler := f; now := now st; wire := wire st |}.

Definition set_now (ts : string) (st : State) : State :=
  {| clients := clients st; allowedUsernames := allowedUsernames st;
     groups := groups st; chatHistory := chatHistory st;
     chatLogFileHandler := chatLogFileHandler st; now := ts;
     wire := wire st |}.

Definition set_wire (w : list (nat * string)) (st : State) : State :=
  {| clients := clients st; allowedUsernames := allowedUsernames st;
     groups := groups st; chatHistory := chatHistory st;
     chatLogFileHandler := chatLogFileHandler st; now := now st;
     wire := w |}.

(** What connection [k] has been sent so far, in order. *)
Definition received (k : nat) (st : State) : list string :=
  omap (fun e => if decide (e.1 = k) then Some e.2 else None) (wire st).

(** The entries of the chat log file. *)
Definition chatLog (st : State) : list string :=
  default [] (chatLogFileHandler st).

(** The format of one log entry: [fmt.Sprintf("[%s] %s", ts, message)]. *)
Definition logEntry (ts message : string) : string :=
  "[" +:+ ts +:+ "] " +:+ message.

(** ** Operations *)

Definition isUsernameAllowed (st : State) (username : string) : bool :=
  match allowedUsernames st !! username with
  | Some _ => true
  | None => false
  end.

Definition logChatMessage (message : string) (st : State) : State :=
  match chatLogFileHandler st with
  | None => st
  | Some f =>
      set_chatLog (Some (f ++ [logEntry (now st) (withNewline message)])) st
  end.

Definition addMessageToHistory (message : string) (st : State) : State :=
  let h := chatHistory st ++ [withNewline message] in
  if decide (MAX_HISTORY_LINES < length h)
  then set_chatHistory (drop (length h - MAX_HISTORY_LINES) h) st
  else set_chatHistory h st.

(** [sendToClient]: every caller passes a client with a writer, so the
    nil guard is not represented; a failed write is only reported on the
    console, so the [wire] records the write that was issued. *)
Definition sendToClient (client : ClientInfo) (message : string) (st : State)
  : State :=
  set_wire (wire st ++ [(conn client, withNewline message)]) st.

(** The test of the loop of [broadcastMessage]:
    [client.active && conn != excludeConn] ([None] is the nil connection). *)
Definition isTarget (excludeConn : option nat) (e : nat * ClientInfo) : bool :=
  active e.2 && negb (bool_decide (Some e.1 = excludeConn)).

Section Server.

(** Go leaves the order of [for ... range clients] unspecified: it is
    some enumeration of the entries of the map. *)
Variable rangeClients : gmap nat ClientInfo -> list (nat * ClientInfo).

Definition broadcastMessage (message : string) (excludeConn : option nat)
    (st : State) : State :=
  let message := withNewline message in
  foldl (fun st e =>
           if isTarget excludeConn e then sendToClient e.2 message st
           else st)
        st (rangeClients (clients st)).

(** The loop of lines 378-388: is [username] held by an active client
    other than [conn]? *)
Definition alreadyExists (conn0 : nat) (username0 : string) (st : State)
  : bool :=
  existsb (fun e =>
             active e.2 && bool_decide (username e.2 = username0)
             && negb (bool_decide (conn e.2 = conn0)))
          (rangeClients (clients st)).

(** The lookup loops of lines 462-468 and 514-523: the first active
    client called [username0] in the order of the iteration. *)
Definition findActive (username0 : string) (st : State)
  : option ClientInfo :=
  snd <$> List.find
            (fun e => active e.2 && bool_decide (username e.2 = username0))
            (rangeClients (clients st)).

(** *** [handleConnection], one segment per blocking read or critical
    section *)

(** Lines 287-339: the client is put in the registry, not yet active,
    and asked for its username. *)
Definition handleConnection_register (conn0 : nat) (st : State) : State :=
  let client := {| conn := conn0; username := ""; active := false |} in
  let st := set_clients (<[conn0 := client]> (clients st)) st in
  sendToClient client "REQ_USERNAME" st.

(** Lines 351-399: the username line is validated; [Some username] when
    every check passed, [None] after a rejection reply (the function
    then returns, which runs the deferred cleanup). *)
Definition handleConnection_username (client : ClientInfo)
    (usernameLine : string) (st : State) : State * option string :=
  let username0 := TrimSpace usernameLine in
  if bool_decide (username0 = "") then
    (sendToClient client
       ("BAD_USERNAME" +:+ NL +:+ "Username cannot be empty.") st, None)
  else if bool_decide (USERNAME_MAX_LEN <= String.length username0) then
    (sendToClient client
       ("BAD_USERNAME" +:+ NL +:+ "Username too long.") st, None)
  else if negb (isUsernameAllowed st username0) then
    (sendToClient client
       ("NOT_ALLOWED" +:+ NL +:+ "Username not on allowed list.") st, None)
  else if alreadyExists (conn client) username0 st then
    (sendToClient client
       ("BAD_USERNAME" +:+ NL +:+ "Username already in use.") st, None)
  else (st, Some username0).

(** Lines 400-405: the client becomes active under the write lock. *)
Definition handleConnection_activate (conn0 : nat) (username0 : string)
    (st : State) : State :=
  let client := {| conn := conn0; username := username0; active := true |} in
  set_clients (<[conn0 := client]> (clients st)) st.

(** Lines 412-422: the welcome line and the replay of the history. *)
Definition handleConnection_welcome (client : ClientInfo)
    (username0 : string) (st : State) : State :=
  let st := sendToClient client ("Welcome, " +:+ username0 +:+ "!") st in
  if decide (0 < length (chatHistory st)) then
    let st := sendToClient client "--- Recent Chat History ---" st in
    let st := foldl (fun st histMsg => sendToClient client histMsg st)
                    st (chatHistory st) in
    sendToClient client "--- End of History ---" st
  else st.

(** Lines 424-427: the join notice. *)
Definition handleConnection_join (conn0 : nat) (username0 : string)
    (st : State) : State :=
  let joinMsg := "System: " +:+ username0 +:+ " has joined the chat." in
  let st := logChatMessage joinMsg st in
  let st := addMessageToHistory joinMsg st in
  broadcastMessage joinMsg (Some conn0) st.

(** Lines 450-490: a line that starts with [PRIVMSG ]. *)
Definition handleConnection_privmsg (client : ClientInfo)
    (fullMessageCmd : string) (st : State) : State :=
  match SplitN fullMessageCmd 3 with
  | [_; recipientUsername; dmText] =>
      if bool_decide (recipientUsername = "") || bool_decide (dmText = "")
      then sendToClient client
             "System: Invalid DM format. Use: PRIVMSG <user> <message>" st
      else
        match findActive recipientUsername st with
        | Some recipientClient =>
            let dmToRecipient :=
              "(DM from " +:+ username client +:+ "): " +:+ dmText in
            let st := sendToClient recipientClient dmToRecipient st in
            let dmToSender :=
              "(DM to " +:+ recipientUsername +:+ "): " +:+ dmText in
            let st := sendToClient client dmToSender st in
            let dmLog :=
              "DM from " +:+ username client +:+ " to "
                +:+ recipientUsername +:+ ": " +:+ dmText in
            let st := logChatMessage dmLog st in
            addMessageToHistory dmLog st
        | None =>
            sendToClient client
              ("System: User '" +:+ recipientUsername
                 +:+ "' not found or is offline.") st
        end
  | _ =>
      sendToClient client
        "System: Invalid DM format. Use: PRIVMSG <user> <message>" st
  end.

(** Lines 491-541: a line that starts with [GROUPMSG ]. *)
Definition handleConnection_groupmsg (client : ClientInfo)
    (fullMessageCmd : string) (st : State) : State :=
  match SplitN fullMessageCmd 3 with
  | [_; groupNameReq; gmText] =>
      if bool_decide (groupNameReq = "") || bool_decide (gmText = "")
      then sendToClient client
             "System: Invalid GM format. Use: GROUPMSG <group> <message>" st
      else
        match groups st !! groupNameReq with
        | Some group =>
            let gmToSend :=
              "(#" +:+ name group +:+ " from " +:+ username client
                +:+ "): " +:+ gmText in
            let st :=
              foldl (fun st memberUsername =>
                       match findActive memberUsername st with
                       | Some c => sendToClient c gmToSend st
                       | None => st
                       end)
                    st (members group) in
            let confirmationToSender :=
              "(To #" +:+ name group +:+ "): " +:+ gmText in
            let st := sendToClient client confirmationToSender st in
            let gmLog :=
              "GROUPMSG to #" +:+ name group +:+ " from "
                +:+ username client +:+ ": " +:+ gmText in
            let st := logChatMessage gmLog st in
            addMessageToHistory gmLog st
        | None =>
            sendToClient client
              ("System: Group '#" +:+ groupNameReq +:+ "' not found.") st
        end
  | _ =>
      sendToClient client
        "System: Invalid GM format. Use: GROUPMSG <group> <message>" st
  end.

(** Lines 445-548: the body of the message loop for one line read. *)
Definition handleConnection_message (client : ClientInfo)
    (message : string) (st : State) : State :=
  let fullMessageCmd := TrimSpace message in
  if HasPrefix fullMessageCmd "PRIVMSG " then
    handleConnection_privmsg client fullMessageCmd st
  else if HasPrefix fullMessageCmd "GROUPMSG " then
    handleConnection_groupmsg client fullMessageCmd st
  else
    let globalMsg := username client +:+ ": " +:+ message in
    let st := logChatMessage (TrimSuffix globalMsg NL) st in
    let st := addMessageToHistory (TrimSuffix globalMsg NL) st in
    broadcastMessage globalMsg None st.

(** Lines 294-333: the deferred function, run when [handleConnection]
    returns. *)
Definition handleConnection_deferred (conn0 : nat) (st : State) : State :=
  match clients st !! conn0 with
  | Some c =>
      let usernameForLog :=
        if bool_decide (username c = "") then "[unauthenticated]"
        else username c in
      let isActive := active c in
      let st := set_clients (delete conn0 (clients st)) st in
      if isActive then
        let systemMsg :=
          "System: " +:+ usernameForLog +:+ " has left the chat." in
        let st := logChatMessage systemMsg st in
        let st := addMessageToHistory systemMsg st in
        broadcastMessage systemMsg None st
      else st
  | None => st
  end.

(** *** The goroutines

    One goroutine runs [handleConnection] per accepted connection.  A
    goroutine can be preempted between any two critical sections, so
    the server advances by the segments above, interleaved in any
    order; [Pc] says where the goroutine of a connection stands. *)

Inductive Pc :=
| AwaitingUsername              (* registered, blocked reading the username *)
| Checked (username0 : string)  (* checks passed, write lock not yet taken *)
| Activated (username0 : string) (* active, welcome and replay pending *)
| Welcomed (username0 : string)  (* join notice pending *)
| InLoop                        (* blocked reading in the message loop *)
| Returning                     (* returned, deferred function pending *)
| Closed.

Record Server := {
  state : State;
  pcs : gmap nat Pc
}.

Inductive Event :=
| EvAccept (c : nat)
| EvUsernameLine (c : nat) (usernameLine : string)
| EvReadError (c : nat)
| EvActivate (c : nat)
| EvWelcome (c : nat)
| EvJoin (c : nat)
| EvLine (c : nat) (message : string)
| EvDeferred (c : nat)
| EvTick (ts : string).

(** What [ReadString(10)] returns without an error: bytes up to and
    including the first newline. *)
Fixpoint isLine (s : string) : bool :=
  match s with
  | EmptyString => false
  | String c r =>
      if Ascii.eqb c (chr 10) then bool_decide (r = "") else isLine r
  end.

Definition goto (c : nat) (pc : Pc) (st : State) (s : Server) : Server :=
  {| state := st; pcs := <[c := pc]> (pcs s) |}.

Definition step (s : Server) (e : Event) : option Server :=
  let st := state s in
  match e with
  | EvAccept c =>
      match pcs s !! c with
      | None => Some (goto c AwaitingUsername (handleConnection_register c st) s)
      | Some _ => None
      end
  | EvUsernameLine c usernameLine =>
      match pcs s !! c, clients st !! c with
      | Some AwaitingUsername, Some client =>
          if isLine usernameLine then
            match handleConnection_username client usernameLine st with
            | (st', Some username0) => Some (goto c (Checked username0) st' s)
            | (st', None) => Some (goto c Returning st' s)
            end
          else None
      | _, _ => None
      end
  | EvReadError c =>
      match pcs s !! c with
      | Some AwaitingUsername | Some InLoop => Some (goto c Returning st s)
      | _ => None
      end
  | EvActivate c =>
      match pcs s !! c with
      | Some (Checked username0) =>
          Some (goto c (Activated username0)
                  (handleConnection_activate c username0 st) s)
      | _ => None
      end
  | EvWelcome c =>
      match pcs s !! c, clients st !! c with
      | Some (Activated username0), Some client =>
          Some (goto c (Welcomed username0)
                  (handleConnection_welcome client username0 st) s)
      | _, _ => None
      end
  | EvJoin c =>
      match pcs s !! c with
      | Some (Welcomed username0) =>
          Some (goto c InLoop (handleConnection_join c username0 st) s)
      | _ => None
      end
  | EvLine c message =>
      match pcs s !! c, clients st !! c with
      | Some InLoop, Some client =>
          if isLine message
          then Some (goto c InLoop (handleConnection_message client message st) s)
          else None
      | _, _ => None
      end
  | EvDeferred c =>
      match pcs s !! c with
      | Some Returning =>
          Some (goto c Closed (handleConnection_deferred c st) s)
      | _ => None
      end
  | EvTick ts => Some {| state := set_now ts st; pcs := pcs s |}
  end.

Fixpoint run (s : Server) (evs : list Event) : option Server :=
  match evs with
  | [] => Some s
  | e :: evs' =>
      match step s e with
      | Some s' => run s' evs'
      | None => None
      end
  end.

(** The server once [Start] has loaded the configuration and opened the
    chat log. *)
Definition initial (allowed : gmap string bool)
    (groups0 : gmap string GroupInfo) : Server :=
  {| state := {| clients := ∅; allowedUsernames := allowed;
                 groups := groups0; chatHistory := [];
                 chatLogFileHandler := Some []; now := "";
                 wire := [] |};
     pcs := ∅ |}.

Definition Reachable (allowed : gmap string bool)
    (groups0 : gmap string GroupInfo) (s : Server) : Prop :=
  exists evs, run (initial allowed groups0) evs = Some s.

End Server.

Arguments Server : clear implicits.

(** The configuration file [users.txt] as loaded by [loadAllowedUsers]. *)
Definition allow (l : list string) : gmap string bool :=
  list_to_map (map (fun u => (u, true)) l).

(** No newline byte in [s]. *)
Fixpoint noNewline (s : string) : bool :=
  match s with
  | EmptyString => true
  | String c r => negb (Ascii.eqb c (chr 10)) && noNewline r
  end.

(** No space byte in [s]. *)
Fixpoint noSpace (s : string) : bool :=
  match s with
  | EmptyString => true
  | String c r => negb (Ascii.eqb c " "%char) && noSpace r
  end.

(** The last [n] elements of a list. *)
Definition lastN {A} (n : nat) (l : list A) : list A :=
  drop (length l - n) l.

(** Appending a sequence of lines to the history, one call each. *)
Definition appendAll (lines : list string) (st : State) : State :=
  foldl (fun st m => addMessageToHistory m st) st lines.

(** ** Vocabulary of the properties *)

(** Each registered client wraps the connection it is registered under. *)
Definition wellKeyed (st : State) : Prop :=
  forall k ci, clients st !! k = Some ci -> conn ci = k.

(** Is connection [k] registered and active? *)
Definition isActive (st : State) (k : nat) : bool :=
  match clients st !! k with
  | Some ci => active ci
  | None => false
  end.

(** The part of a sequence of writes that goes to connection [k]. *)
Definition deliveredTo (k : nat) (w : list (nat * string)) : list string :=
  omap (fun e => if decide (e.1 = k) then Some e.2 else None) w.

(** What [logChatMessage] does to the log file. *)
Definition logged (message : string) (st : State) : option (list string) :=
  (fun f => f ++ [logEntry (now st) message]) <$> chatLogFileHandler st.

(** The two arguments of a [PRIVMSG] or [GROUPMSG] command, when the
    line has them: the source's test is
    [len(parts) < 3 || parts[1] == "" || parts[2] == ""]. *)
Definition commandArgs (fullMessageCmd : string) : option (string * string) :=
  match SplitN fullMessageCmd 3 with
  | [_; a; t] =>
      if bool_decide (a = "") || bool_decide (t = "") then None
      else Some (a, t)
  | _ => None
  end.

(** An error reply: one line written to connection [c], nothing else
    changed (registry, history and log are as they were). *)
Definition onlyReply (c : nat) (reply : string) (st st' : State) : Prop :=
  st' = set_wire (wire st ++ [(c, reply +:+ NL)]) st.



(** *** Configurations and runs used as examples *)

Definition login (c : nat) (u : string) : list Event :=
  [EvAccept c; EvUsernameLine c (u +:+ NL); EvActivate c; EvWelcome c;
   EvJoin c].

Definition config_users : gmap string bool := allow ["alice"; "bob"; "carol"].

Definition config_groups : gmap string GroupInfo :=
  {[ "friends" := {| name := "friends"; members := ["alice"; "bob"] |} ]}.

Definition alice : ClientInfo :=
  {| conn := 0; username := "alice"; active := true |}.

Definition bobPending : ClientInfo :=
  {| conn := 1; username := ""; active := false |}.

(** alice, bob and carol are logged in on connections 0, 1 and 2. *)
Definition demo3_events : list Event :=
  login 0 "alice" ++ login 1 "bob" ++ login 2 "carol".

Definition demo3 : Server :=
  default (initial config_users config_groups)
    (run map_to_list (initial config_users config_groups) demo3_events).

(** alice is logged in on connection 0; connection 1 has been accepted
    and has not sent its username. *)
Definition demoAlice_events : list Event := login 0 "alice" ++ [EvAccept 1].

Definition demoAlice : Server :=
  default (initial config_users config_groups)
    (run map_to_list (initial config_users config_groups) demoAlice_events).



(** Twenty-five distinct one-letter lines. *)
Definition lines25 : list string :=
  map (fun n => String (ascii_of_nat (65 + n)) EmptyString) (seq 0 25).

(** What the goroutine of a connection, standing at [pc], has made of
    its registry entry [ci]. *)
Definition pcEntry (pc : Pc) (ci : ClientInfo) : Prop :=
  match pc with
  | AwaitingUsername => active ci = false
  | Checked u => active ci = false /\ u <> ""
  | Activated u | Welcomed u =>
      active ci = true /\ username ci = u /\ u <> ""
  | InLoop => active ci = true /\ username ci <> ""
  | Returning => active ci = true -> username ci <> ""
  | Closed => False
  end.

(** The registry holds exactly the connections whose goroutine has
    registered and not yet run its deferred function. *)
Definition registryInv (s : Server) : Prop :=
  forall c,
    match clients (state s) !! c with
    | Some ci => conn ci = c /\ exists pc, pcs s !! c = Some pc /\ pcEntry pc ci
    | None => pcs s !! c = None \/ pcs s !! c = Some Closed
    end.

(** At most one active session per username. *)
Definition uniqueActive (st : State) : Prop :=
  forall k1 k2 c1 c2,
    clients st !! k1 = Some c1 -> clients st !! k2 = Some c2 ->
    active c1 = true -> active c2 = true ->
    username c1 = username c2 -> k1 = k2.

Definition replyInUse : string :=
  "BAD_USERNAME" +:+ NL +:+ "Username already in use." +:+ NL.

(** Is some active client other than [c] called [u]? *)
Definition usernameInUse (c : nat) (u : string) (st : State) : Prop :=
  exists k ci, clients st !! k = Some ci /\ active ci = true
               /\ username ci = u /\ conn ci <> c.

(** [stepEffect P st st']: what a segment of a goroutine can do besides
    updating the registry. *)
Definition stepEffect (P : nat -> Prop) (st st' : State) : Prop :=
  allowedUsernames st' = allowedUsernames st
  /\ groups st' = groups st
  /\ now st' = now st
  /\ (exists w, wire st' = wire st ++ w
                /\ Forall (fun e => P e.1 /\ HasSuffix e.2 NL = true) w)
  /\ ((chatHistory st' = chatHistory st
       /\ chatLogFileHandler st' = chatLogFileHandler st)
      \/ exists m, HasSuffix m NL = true
                   /\ chatHistory st'
                      = lastN MAX_HISTORY_LINES (chatHistory st ++ [m])
                   /\ chatLogFileHandler st' = logged m st).

(** The connection whose goroutine an event advances. *)
Definition eventConn (e : Event) : option nat :=
  match e with
  | EvAccept c | EvUsernameLine c _ | EvReadError c | EvActivate c
  | EvWelcome c | EvJoin c | EvLine c _ | EvDeferred c => Some c
  | EvTick _ => None
  end.


(** How often [u] is listed in [l]. *)
Definition occurrences (u : string) (l : list string) : nat :=
  length (filter (fun m => m = u) l).

(** The lines of the history replay: nothing for an empty history,
    otherwise the history between the two marker lines. *)
Definition replayLines (history : list string) : list string :=
  match history with
  | [] => []
  | _ :: _ =>
      ("--- Recent Chat History ---" +:+ NL)
      :: map withNewline history ++ ["--- End of History ---" +:+ NL]
  end.

(** ** Loading the configuration *)

Definition GROUPNAME_MAX_LEN : nat := 50.

Definition set_allowedUsernames (m : gmap string bool) (st : State) : State :=
  {| clients := clients st; allowedUsernames := m;
     groups := groups st; chatHistory := chatHistory st;
     chatLogFileHandler := chatLogFileHandler st; now := now st;
     wire := wire st |}.

Definition set_groups (g : gmap string GroupInfo) (st : State) : State :=
  {| clients := clients st; allowedUsernames := allowedUsernames st;
     groups := g; chatHistory := chatHistory st;
     chatLogFileHandler := chatLogFileHandler st; now := now st;
     wire := wire st |}.

(** [strings.Cut(s, sep)] for a one-byte separator. *)
Fixpoint cutAt (sep : ascii) (s : string) : option (string * string) :=
  match s with
  | EmptyString => None
  | String c r =>
      if Ascii.eqb c sep then Some (EmptyString, r)
      else match cutAt sep r with
           | Some (a, b) => Some (String c a, b)
           | None => None
           end
  end.

(** [strings.SplitN(s, sep, n)] for a one-byte separator and [n >= 0]. *)
Fixpoint SplitNAt (sep : ascii) (s : string) (n : nat) : list string :=
  match n with
  | 0 => []
  | 1 => [s]
  | S n' =>
      match cutAt sep s with
      | None => [s]
      | Some (a, r) => a :: SplitNAt sep r n'
      end
  end.

(** [strings.Split(s, sep)] for a one-byte separator: the pieces between
    the separators, one more than there are separators. *)
Fixpoint Split (sep : ascii) (s : string) : list string :=
  match s with
  | EmptyString => [EmptyString]
  | String c r =>
      if Ascii.eqb c sep then EmptyString :: Split sep r
      else match Split sep r with
           | p :: ps => String c p :: ps
           | [] => [String c EmptyString]
           end
  end.

(** The body of the scanning loop of [loadAllowedUsers] (lines 83-97);
    [text] is what [scanner.Text()] returns for one line of the file. *)
Definition loadAllowedUsers_line (m : gmap string bool) (text : string)
  : gmap string bool :=
  let username0 := TrimSpace text in
  if bool_decide (username0 = "") then m
  else if bool_decide (USERNAME_MAX_LEN <= String.length username0) then m
  else <[username0 := true]> m.

(** [loadAllowedUsers]: [None] when [users.txt] cannot be opened (the
    function returns before it touches the map), otherwise the lines the
    scanner yields. *)
Definition loadAllowedUsers (file : option (list string)) (st : State)
  : State :=
  match file with
  | None => st
  | Some lines => set_allowedUsernames (foldl loadAllowedUsers_line ∅ lines) st
  end.

(** The member loop of [loadGroups] (lines 163-182). *)
Definition loadGroups_members (memberStr : string) : list string :=
  foldl (fun members0 memberName =>
           let m := TrimSpace memberName in
           if bool_decide (m = "") then members0
           else if bool_decide (USERNAME_MAX_LEN <= String.length m)
                then members0
                else members0 ++ [m])
        [] (Split ","%char memberStr).

(** The body of the scanning loop of [loadGroups] (lines 135-192). *)
Definition loadGroups_line (g : gmap string GroupInfo) (text : string)
  : gmap string GroupInfo :=
  let line := TrimSpace text in
  if bool_decide (line = "") then g
  else
    match SplitNAt ":"%char line 2 with
    | [p0; p1] =>
        let groupName := TrimSpace p0 in
        let memberStr := TrimSpace p1 in
        if bool_decide (GROUPNAME_MAX_LEN <= String.length groupName) then g
        else if bool_decide (groupName = "") || bool_decide (memberStr = "")
        then g
        else
          let members0 := loadGroups_members memberStr in
          if bool_decide (0 < length members0)
          then <[groupName := {| name := groupName; members := members0 |}]> g
          else g
    | _ => g
    end.

Definition loadGroups (file : option (list string)) (st : State) : State :=
  match file with
  | None => st
  | Some lines => set_groups (foldl loadGroups_line ∅ lines) st
  end.

(** The package-level variables before [Start] has run. *)
Definition zeroState : State :=
  {| clients := ∅; allowedUsernames := ∅; groups := ∅; chatHistory := [];
     chatLogFileHandler := None; now := ""; wire := [] |}.

(** [Start] up to its accept loop: the configuration is loaded and the
    chat log opened (failing to open it is fatal). *)
Definition Start (usersFile groupsFile : option (list string)) : Server :=
  let st := loadGroups groupsFile (loadAllowedUsers usersFile zeroState) in
  initial (allowedUsernames st) (groups st).

(** A username as the handshake accepts it. *)
Definition wellFormedName (u : string) : Prop :=
  u <> "" /\ String.length u < USERNAME_MAX_LEN.

(** A string with no white space at either end. *)
Definition trimmed (u : string) : Prop :=
  leadingSpace u = None /\ trailingSpace u = None.

(** What the handshake and the loaders accept as a name. *)
Definition goodName (allowed : gmap string bool) (u : string) : Prop :=
  is_Some (allowed !! u) /\ wellFormedName u /\ trimmed u.

(** Every pending or active username has passed the checks. *)
Definition namesInv (allowed : gmap string bool) (s : Server) : Prop :=
  (forall c u, pcs s !! c = Some (Checked u) -> goodName allowed u)
  /\ (forall c ci, clients (state s) !! c = Some ci -> active ci = true ->
                   goodName allowed (username ci)).

(** ** The WebSocket endpoint *)

(** What [wsConn.Read] returns without an error: the type of the message
    and its payload. *)
Inductive WsMessage :=
| MessageText (p : string)
| MessageBinary (p : string).

(** The package-level variables as the WebSocket handlers see them:
    those of the TCP server, the map [wsClients] of line 763 and the
    text frames written to the WebSocket connections. *)
Record WsState := {
  shared : State;
  wsClients : gmap nat ClientInfo;
  wsWire : list (nat * string)        (* frames issued, per connection *)
}.

Definition set_shared (st : State) (ws : WsState) : WsState :=
  {| shared := st; wsClients := wsClients ws; wsWire := wsWire ws |}.

Definition set_wsWire (w : list (nat * string)) (ws : WsState) : WsState :=
  {| shared := shared ws; wsClients := wsClients ws; wsWire := w |}.

(** The frames connection [k] has been sent so far, in order. *)
Definition wsReceived (k : nat) (ws : WsState) : list string :=
  deliveredTo k (wsWire ws).

(** The closure [sendToWsClient] of lines 621-630 for the connection
    [wsConn]; a failed write is reported on the console, and only the
    caller of line 633 looks at the error. *)
Definition sendToWsClient (wsConn : nat) (msg : string) (ws : WsState)
  : WsState :=
  set_wsWire (wsWire ws ++ [(wsConn, withNewline msg)]) ws.

Section WebSocket.

Variable rangeClients : gmap nat ClientInfo -> list (nat * ClientInfo).
Variable rangeWsClients : gmap nat ClientInfo -> list (nat * ClientInfo).

(** Lines 766-798.  The second loop, over the TCP clients, has an empty
    body. *)
Definition broadcastWebSocketMessage (message : string)
    (excludeConn : option nat) (ws : WsState) : WsState :=
  let message := withNewline message in
  foldl (fun ws e =>
           if isTarget excludeConn e
           then set_wsWire (wsWire ws ++ [(e.1, message)]) ws
           else ws)
        ws (rangeWsClients (wsClients ws)).

(** The loop of lines 672-679: is [username] held by an active client of
    the TCP registry? *)
Definition wsAlreadyExists (username0 : string) (st : State) : bool :=
  existsb (fun e => active e.2 && bool_decide (username e.2 = username0))
          (rangeClients (clients st)).

(** Lines 647-683: the checks of the username; [Some username] when
    every check passed. *)
Definition handleWebSocketConnection_username (wsConn : nat)
    (usernameBytes : string) (ws : WsState) : WsState * option string :=
  let username0 := TrimSpace usernameBytes in
  if bool_decide (username0 = "") then
    (sendToWsClient wsConn
       ("BAD_USERNAME" +:+ NL +:+ "Username cannot be empty.") ws, None)
  else if bool_decide (USERNAME_MAX_LEN <= String.length username0) then
    (sendToWsClient wsConn
       ("BAD_USERNAME" +:+ NL +:+ "Username too long.") ws, None)
  else if negb (isUsernameAllowed (shared ws) username0) then
    (sendToWsClient wsConn
       ("NOT_ALLOWED" +:+ NL +:+ "Username not on allowed list.") ws, None)
  else if wsAlreadyExists username0 (shared ws) then
    (sendToWsClient wsConn
       ("BAD_USERNAME" +:+ NL +:+ "Username already in use.") ws, None)
  else (ws, Some username0).

(** Lines 697-708: the welcome line and the replay of the history. *)
Definition handleWebSocketConnection_welcome (wsConn : nat)
    (username0 : string) (ws : WsState) : WsState :=
  let ws := sendToWsClient wsConn ("Welcome, " +:+ username0 +:+ "!") ws in
  if decide (0 < length (chatHistory (shared ws))) then
    let ws := sendToWsClient wsConn "--- Recent Chat History ---" ws in
    let ws := foldl (fun ws histMsg => sendToWsClient wsConn histMsg ws)
                    ws (chatHistory (shared ws)) in
    sendToWsClient wsConn "--- End of History ---" ws
  else ws.

(** Lines 710-714: the join notice. *)
Definition handleWebSocketConnection_join (wsConn : nat)
    (username0 : string) (ws : WsState) : WsState :=
  let joinMsg := "System: " +:+ username0 +:+ " has joined the chat." +:+ NL in
  let ws := set_shared (logChatMessage joinMsg (shared ws)) ws in
  let ws := set_shared (addMessageToHistory joinMsg (shared ws)) ws in
  broadcastWebSocketMessage joinMsg (Some wsConn) ws.

(** Lines 736-757: the body of the message loop for one text message. *)
Definition handleWebSocketConnection_message (wsConn : nat)
    (username0 message : string) (ws : WsState) : WsState :=
  let fullMessageCmd := TrimSpace message in
  if HasPrefix fullMessageCmd "PRIVMSG " then
    sendToWsClient wsConn
      ("System: DM processing not fully implemented for WS yet." +:+ NL) ws
  else if HasPrefix fullMessageCmd "GROUPMSG " then
    sendToWsClient wsConn
      ("System: GroupMSG processing not fully implemented for WS yet." +:+ NL)
      ws
  else
    let globalMsg := withNewline (username0 +:+ ": " +:+ message) in
    let ws :=
      set_shared (logChatMessage (TrimSuffix globalMsg NL) (shared ws)) ws in
    let ws :=
      set_shared (addMessageToHistory (TrimSuffix globalMsg NL) (shared ws))
        ws in
    broadcastWebSocketMessage globalMsg None ws.

(** Lines 598-618: the deferred function; [client] is the local
    [ClientInfo] of the handler, which is in no map. *)
Definition handleWebSocketConnection_deferred (wsConn : nat)
    (client : ClientInfo) (ws : WsState) : WsState :=
  if active client then
    let systemMsg :=
      "System: " +:+ username client +:+ " has left the chat." +:+ NL in
    let ws := set_shared (logChatMessage systemMsg (shared ws)) ws in
    let ws := set_shared (addMessageToHistory systemMsg (shared ws)) ws in
    broadcastWebSocketMessage systemMsg (Some wsConn) ws
  else ws.

(** *** The goroutines of the HTTP server

    [serveWs] runs [handleWebSocketConnection] in the goroutine of the
    request; [WsPc] says where it stands. *)

Inductive WsPc :=
| WsAwaitingUsername                 (* blocked reading the username *)
| WsChecked (username0 : string)     (* checks passed, welcome pending *)
| WsWelcomed (username0 : string)    (* join notice pending *)
| WsInLoop (username0 : string)      (* blocked reading in the message loop *)
| WsReturning (client : ClientInfo)  (* returned, deferred function pending *)
| WsClosed.

Record WsServer := {
  wsState : WsState;
  wsPcs : gmap nat WsPc
}.

Inductive WsEvent :=
| WsAccept (c : nat) (written : bool)
| WsUsername (c : nat) (msg : WsMessage)
| WsReadError (c : nat)
| WsWelcome (c : nat)
| WsJoin (c : nat)
| WsFrame (c : nat) (msg : WsMessage)
| WsDeferred (c : nat).

Definition wsGoto (c : nat) (pc : WsPc) (ws : WsState) (s : WsServer)
  : WsServer :=
  {| wsState := ws; wsPcs := <[c := pc]> (wsPcs s) |}.

(** The local [client] of the handler of connection [c]; [conn] stands
    for the field that is left nil. *)
Definition wsClient (c : nat) (username0 : string) (active0 : bool)
  : ClientInfo :=
  {| conn := c; username := username0; active := active0 |}.

Definition wsStep (s : WsServer) (e : WsEvent) : option WsServer :=
  let ws := wsState s in
  match e with
  | WsAccept c written =>
      (* lines 553-635: the upgrade succeeded and REQ_USERNAME is
         written; when the write fails the handler returns *)
      match wsPcs s !! c with
      | None =>
          let ws := sendToWsClient c "REQ_USERNAME" ws in
          Some (wsGoto c (if written then WsAwaitingUsername
                          else WsReturning (wsClient c "" false)) ws s)
      | Some _ => None
      end
  | WsUsername c msg =>
      match wsPcs s !! c with
      | Some WsAwaitingUsername =>
          match msg with
          | MessageBinary _ =>
              Some (wsGoto c (WsReturning (wsClient c "" false)) ws s)
          | MessageText usernameBytes =>
              match handleWebSocketConnection_username c usernameBytes ws with
              | (ws', Some username0) =>
                  Some (wsGoto c (WsChecked username0) ws' s)
              | (ws', None) =>
                  Some (wsGoto c (WsReturning (wsClient c "" false)) ws' s)
              end
          end
      | _ => None
      end
  | WsReadError c =>
      match wsPcs s !! c with
      | Some WsAwaitingUsername =>
          Some (wsGoto c (WsReturning (wsClient c "" false)) ws s)
      | Some (WsInLoop username0) =>
          Some (wsGoto c (WsReturning (wsClient c username0 true)) ws s)
      | _ => None
      end
  | WsWelcome c =>
      match wsPcs s !! c with
      | Some (WsChecked username0) =>
          Some (wsGoto c (WsWelcomed username0)
                  (handleWebSocketConnection_welcome c username0 ws) s)
      | _ => None
      end
  | WsJoin c =>
      match wsPcs s !! c with
      | Some (WsWelcomed username0) =>
          Some (wsGoto c (WsInLoop username0)
                  (handleWebSocketConnection_join c username0 ws) s)
      | _ => None
      end
  | WsFrame c msg =>
      match wsPcs s !! c with
      | Some (WsInLoop username0) =>
          match msg with
          | MessageBinary _ => Some (wsGoto c (WsInLoop username0) ws s)
          | MessageText message =>
              Some (wsGoto c (WsInLoop username0)
                      (handleWebSocketConnection_message c username0 message
                         ws) s)
          end
      | _ => None
      end
  | WsDeferred c =>
      match wsPcs s !! c with
      | Some (WsReturning client) =>
          Some (wsGoto c WsClosed
                  (handleWebSocketConnection_deferred c client ws) s)
      | _ => None
      end
  end.

Fixpoint wsRun (s : WsServer) (evs : list WsEvent) : option WsServer :=
  match evs with
  | [] => Some s
  | e :: evs' =>
      match wsStep s e with
      | Some s' => wsRun s' evs'
      | None => None
      end
  end.

End WebSocket.

Arguments WsServer : clear implicits.

(** The web server beside a TCP server in state [st]: no web session
    yet, [wsClients] as line 763 makes it. *)
Definition wsInitial (st : State) : WsServer :=
  {| wsState := {| shared := st; wsClients := ∅; wsWire := [] |};
     wsPcs := ∅ |}.

Definition wsEventConn (e : WsEvent) : nat :=
  match e with
  | WsAccept c _ | WsUsername c _ | WsReadError c | WsWelcome c | WsJoin c
  | WsFrame c _ | WsDeferred c => c
  end.

(** What a segment of a web session can do: it leaves the TCP registry,
    the TCP wire, the configuration and [wsClients] as they are. *)
Definition wsFrameInv (ws ws' : WsState) : Prop :=
  clients (shared ws') = clients (shared ws)
  /\ wire (shared ws') = wire (shared ws)
  /\ allowedUsernames (shared ws') = allowedUsernames (shared ws)
  /\ groups (shared ws') = groups (shared ws)
  /\ wsClients ws' = wsClients ws.

(** The frames a segment adds are all for the connection [c]. *)
Definition ownFrames (c : nat) (ws ws' : WsState) : Prop :=
  exists l, wsWire ws' = wsWire ws ++ map (fun m => (c, m)) l.

(** *** Further configurations and runs used as examples *)

(** An allow list with a name that contains a blank; alice and ann lee
    are logged in on connections 0 and 1. *)
Definition spaced_users : gmap string bool := allow ["alice"; "ann lee"].

Definition demoSpaced_events : list Event :=
  login 0 "alice" ++ login 1 "ann lee".

Definition demoSpaced : Server :=
  default (initial spaced_users ∅)
    (run map_to_list (initial spaced_users ∅) demoSpaced_events).



(** Beside the TCP server of [demoAlice], bob is logged in on the web
    connection 0. *)
Definition webDemo_events : list WsEvent :=
  [WsAccept 0 true; WsUsername 0 (MessageText "bob"); WsWelcome 0; WsJoin 0].

Definition webDemo : WsServer :=
  default (wsInitial (state demoAlice))
    (wsRun map_to_list map_to_list (wsInitial (state demoAlice))
       webDemo_events).

(** Two web connections have been accepted beside [demoAlice]. *)
Definition webPending : WsServer :=
  default (wsInitial (state demoAlice))
    (wsRun map_to_list map_to_list (wsInitial (state demoAlice))
       [WsAccept 0 true; WsAccept 1 true]).

(** * Properties *)

(** ** Strings *)

Section StringFacts.

Lemma append_cons (c : ascii) (a b : string) :
  String c a +:+ b = String c (a +:+ b).
Proof. reflexivity. Qed.

Lemma append_nil_l (b : string) : "" +:+ b = b.
Proof. reflexivity. Qed.


Lemma append_assoc (a b c : string) : (a +:+ b) +:+ c = a +:+ (b +:+ c).
Proof.
  induction a as [|x a IH]; [done|]. by rewrite !append_cons, IH.
Qed.

Lemma append_eq_nil (a b : string) : a +:+ b = "" -> a = "" /\ b = "".
Proof. destruct a; [done | rewrite append_cons; discriminate]. Qed.

Lemma length_append (a b : string) :
  String.length (a +:+ b) = String.length a + String.length b.
Proof.
  induction a as [|x a IH]; [done|]. rewrite append_cons. cbn. by rewrite IH.
Qed.

Lemma substring_append_l (a b : string) :
  String.substring 0 (String.length a) (a +:+ b) = a.
Proof.
  induction a as [|x a IH].
  - rewrite append_nil_l. by destruct b.
  - rewrite append_cons. cbn. by rewrite IH.
Qed.

Lemma HasSuffix_cons (c : ascii) (s : string) :
  s <> "" -> HasSuffix (String c s) NL = HasSuffix s NL.
Proof.
  intros Hs. cbn [HasSuffix].
  destruct (String.eqb_spec (String c s) NL) as [E|_]; [|done].
  unfold NL in E. cbn in E. injection E as _ E. done.
Qed.

Lemma HasSuffix_append (a b : string) :
  b <> "" -> HasSuffix (a +:+ b) NL = HasSuffix b NL.
Proof.
  intros Hb. induction a as [|x a IH]; [done|].
  rewrite append_cons, <- IH. apply HasSuffix_cons.
  intros E. by apply append_eq_nil in E as [_ ?].
Qed.

Lemma HasSuffix_NL (a : string) : HasSuffix (a +:+ NL) NL = true.
Proof. rewrite HasSuffix_append; [by vm_compute | discriminate]. Qed.

Lemma HasSuffix_noNewline (s : string) :
  noNewline s = true -> HasSuffix s NL = false.
Proof.
  induction s as [|c s IH]; [done|].
  cbn [noNewline]. intros [Hc Hs]%andb_true_iff.
  destruct (decide (s = "")) as [->|Hne].
  - cbn. destruct (Ascii.eqb_spec c (chr 10)) as [->|Hn]; [done|].
    destruct (String.eqb_spec (String c "") NL) as [E|_]; [|done].
    injection E as E. done.
  - rewrite HasSuffix_cons; auto.
Qed.

Lemma withNewline_NL (a : string) : withNewline (a +:+ NL) = a +:+ NL.
Proof. unfold withNewline. by rewrite HasSuffix_NL. Qed.

Lemma withNewline_noNewline (s : string) :
  noNewline s = true -> withNewline s = s +:+ NL.
Proof. intros H. unfold withNewline. by rewrite HasSuffix_noNewline. Qed.

Lemma withNewline_idem (s : string) :
  withNewline (withNewline s) = withNewline s.
Proof.
  unfold withNewline.
  destruct (HasSuffix s NL) eqn:E; [by rewrite E | by rewrite HasSuffix_NL].
Qed.

Lemma TrimSuffix_NL (a : string) : TrimSuffix (a +:+ NL) NL = a.
Proof.
  unfold TrimSuffix. rewrite HasSuffix_NL, length_append.
  replace (String.length a + String.length NL - String.length NL)
    with (String.length a) by (cbn; lia).
  apply substring_append_l.
Qed.

(** A line as [ReadString] returns it is its text and one newline. *)
Lemma isLine_inv (s : string) :
  isLine s = true -> exists text, s = text +:+ NL /\ noNewline text = true.
Proof.
  induction s as [|c s IH]; [done|]. cbn [isLine].
  destruct (Ascii.eqb_spec c (chr 10)) as [->|Hc].
  - intros ->%bool_decide_eq_true. by exists "".
  - intros [text [-> Ht]]%IH. exists (String c text). split; [done|].
    cbn [noNewline]. rewrite Ht.
    by destruct (Ascii.eqb_spec c (chr 10)).
Qed.

Lemma cut_noSpace (r t : string) :
  noSpace r = true -> cut (r +:+ " " +:+ t) = Some (r, t).
Proof.
  induction r as [|c r IH]; [done|].
  cbn [noSpace]. intros [Hc Hr]%andb_true_iff.
  rewrite append_cons. cbn [cut].
  destruct (Ascii.eqb c " "); [done|]. by rewrite (IH Hr).
Qed.

Lemma SplitN_command (cmd r t : string) :
  noSpace cmd = true -> noSpace r = true ->
  SplitN (cmd +:+ " " +:+ r +:+ " " +:+ t) 3 = [cmd; r; t].
Proof.
  intros Hc Hr. cbn [SplitN].
  rewrite (cut_noSpace cmd _ Hc). by rewrite (cut_noSpace r t Hr).
Qed.

Lemma HasPrefix_append (a b : string) : HasPrefix (a +:+ b) a = true.
Proof.
  unfold HasPrefix. induction a as [|x a IH].
  - rewrite append_nil_l. by destruct b.
  - rewrite append_cons. cbn. by destruct (ascii_dec x x).
Qed.

End StringFacts.

(** ** The history buffer *)

Section History.

Lemma lastN_length {A} (n : nat) (l : list A) :
  length (lastN n l) = Nat.min n (length l).
Proof.
  unfold lastN. rewrite length_drop.
  destruct (Nat.min_spec n (length l)) as [[? ->]|[? ->]]; lia.
Qed.

Lemma lastN_short {A} (n : nat) (l : list A) :
  length l <= n -> lastN n l = l.
Proof.
  intros H. unfold lastN. replace (length l - n) with 0 by lia. done.
Qed.

Lemma lastN_snoc {A} (n : nat) (l : list A) (x : A) :
  lastN n (lastN n l ++ [x]) = lastN n (l ++ [x]).
Proof.
  unfold lastN. rewrite !length_app, length_drop. cbn [length].
  destruct (decide (length l <= n)) as [Hle|Hgt].
  - replace (length l - n) with 0 by lia. rewrite drop_0.
    f_equal. lia.
  - destruct (decide (n = 0)) as [->|Hn].
    + rewrite !drop_ge; [done | |]; rewrite length_app, ?length_drop; cbn; lia.
    + rewrite drop_app_le by (rewrite length_drop; lia).
      rewrite drop_drop.
      rewrite (drop_app_le l) by lia.
      do 2 f_equal. lia.
Qed.

Lemma lastN_app {A} (n : nat) (a b : list A) :
  lastN n (lastN n a ++ b) = lastN n (a ++ b).
Proof.
  induction b as [|x b IH] using rev_ind.
  - rewrite !app_nil_r. apply lastN_short.
    rewrite lastN_length. apply Nat.le_min_l.
  - rewrite !app_assoc, <- lastN_snoc, IH. apply lastN_snoc.
Qed.

Lemma addMessageToHistory_chatHistory (message : string) (st : State) :
  chatHistory (addMessageToHistory message st)
  = lastN MAX_HISTORY_LINES (chatHistory st ++ [withNewline message]).
Proof.
  unfold addMessageToHistory. case_decide; cbn; [done|].
  symmetry. apply lastN_short. lia.
Qed.

Lemma appendAll_chatHistory (lines : list string) (st : State) :
  length (chatHistory st) <= MAX_HISTORY_LINES ->
  chatHistory (appendAll lines st)
  = lastN MAX_HISTORY_LINES (chatHistory st ++ map withNewline lines).
Proof.
  revert st. induction lines as [|m lines IH]; intros st Hst; cbn.
  - rewrite app_nil_r. symmetry. by apply lastN_short.
  - unfold appendAll in IH. rewrite IH.
    + rewrite addMessageToHistory_chatHistory, lastN_app.
      by rewrite <- app_assoc.
    + rewrite addMessageToHistory_chatHistory, lastN_length.
      apply Nat.le_min_l.
Qed.

(** C4. The history buffer never holds more than 20 entries; an append
    to a full buffer drops the oldest entry and puts the new line last;
    after any sequence of appends the buffer is the last 20 of the lines
    held and appended (newline terminated), in order; and 25 appends to
    the empty buffer leave exactly the last 20 appended lines. *)
Theorem history_bound (st : State) (lines : list string) :
  length (chatHistory st) <= MAX_HISTORY_LINES ->
  MAX_HISTORY_LINES = 20
  /\ length (chatHistory (appendAll lines st)) <= 20
  /\ chatHistory (appendAll lines st)
     = lastN 20 (chatHistory st ++ map withNewline lines)
  /\ (forall message,
        length (chatHistory st) = 20 ->
        chatHistory (addMessageToHistory message st)
        = drop 1 (chatHistory st) ++ [withNewline message])
  /\ (chatHistory st = [] -> length lines = 20 + 5 ->
      length (chatHistory (appendAll lines st)) = 20
      /\ chatHistory (appendAll lines st)
         = map withNewline (drop 5 lines)).
Proof.
  intros Hst. pose proof (appendAll_chatHistory lines st Hst) as E.
  change MAX_HISTORY_LINES with 20 in *.
  split; [done|]. split; [|split; [|split]].
  - rewrite E, lastN_length. apply Nat.le_min_l.
  - exact E.
  - intros message Hfull. rewrite addMessageToHistory_chatHistory.
    unfold lastN. rewrite length_app. cbn [length].
    change MAX_HISTORY_LINES with 20.
    replace (length (chatHistory st) + 1 - 20) with 1 by lia.
    rewrite drop_app_le by lia. done.
  - intros Hnil Hlen. rewrite E, Hnil. cbn [app].
    split.
    + rewrite lastN_length, length_map, Hlen. done.
    + unfold lastN. rewrite length_map, Hlen. cbn [Nat.sub Nat.add].
      symmetry. apply (fmap_drop withNewline).
Qed.

End History.

(** ** Deliveries *)

Section Deliveries.

Variable rangeClients : gmap nat ClientInfo -> list (nat * ClientInfo).
Hypothesis rangeClients_perm :
  forall m, rangeClients m ≡ₚ map_to_list m.

Lemma set_wire_id (st : State) : set_wire (wire st) st = st.
Proof. by destruct st. Qed.

Lemma set_wire_set_wire (w w' : list (nat * string)) (st : State) :
  set_wire w' (set_wire w st) = set_wire w' st.
Proof. done. Qed.

Lemma wire_set_wire (w : list (nat * string)) (st : State) :
  wire (set_wire w st) = w.
Proof. done. Qed.

Lemma deliveredTo_app (k : nat) (a b : list (nat * string)) :
  deliveredTo k (a ++ b) = deliveredTo k a ++ deliveredTo k b.
Proof. apply omap_app. Qed.

Lemma deliveredTo_cons (k c : nat) (m : string) (w : list (nat * string)) :
  deliveredTo k ((c, m) :: w)
  = (if decide (c = k) then [m] else []) ++ deliveredTo k w.
Proof. unfold deliveredTo. cbn. by case_decide. Qed.

Lemma received_wire (k : nat) (st : State) :
  received k st = deliveredTo k (wire st).
Proof. done. Qed.

Lemma in_range (m : gmap nat ClientInfo) (k : nat) (ci : ClientInfo) :
  (k, ci) ∈ rangeClients m <-> m !! k = Some ci.
Proof. rewrite rangeClients_perm. apply elem_of_map_to_list. Qed.

Lemma range_NoDup (m : gmap nat ClientInfo) : NoDup (rangeClients m).*1.
Proof. rewrite rangeClients_perm. apply NoDup_fst_map_to_list. Qed.

Lemma filter_none {A} (P : A -> Prop) `{forall x, Decision (P x)}
    (l : list A) :
  (forall x, x ∈ l -> ~ P x) -> filter P l = [].
Proof.
  induction l as [|x l IH]; intros Hl; [done|].
  rewrite filter_cons_False by (apply Hl; left).
  apply IH. intros y Hy. apply Hl. by right.
Qed.

Lemma filter_key {A} (l : list (nat * A)) (k : nat) :
  NoDup l.*1 ->
  filter (fun e => e.1 = k) l = []
  \/ exists v, filter (fun e => e.1 = k) l = [(k, v)].
Proof.
  induction l as [|[k' v] l IH]; [by left|].
  rewrite fmap_cons, NoDup_cons. intros [Hk Hl].
  rewrite filter_cons. cbn [fst]. case_decide as E.
  - subst k'. right. exists v. f_equal.
    apply filter_none. intros [k2 v2] Hin. cbn. intros ->.
    apply Hk. apply list_elem_of_fmap. by exists (k, v2).
  - by apply IH.
Qed.

Lemma range_filter_key (m : gmap nat ClientInfo) (k : nat) :
  filter (fun e => e.1 = k) (rangeClients m)
  = match m !! k with Some ci => [(k, ci)] | None => [] end.
Proof.
  destruct (filter_key (rangeClients m) k (range_NoDup m)) as [E|[v E]].
  - destruct (m !! k) as [ci|] eqn:Hk; [|done].
    apply in_range in Hk.
    assert ((k, ci) ∈ filter (fun e => e.1 = k) (rangeClients m)) as Hin
      by (by apply list_elem_of_filter).
    rewrite E in Hin. by apply not_elem_of_nil in Hin.
  - assert ((k, v) ∈ filter (fun e => e.1 = k) (rangeClients m)) as Hin
      by (rewrite E; apply list_elem_of_singleton; done).
    apply list_elem_of_filter in Hin as [_ Hin]. apply in_range in Hin.
    by rewrite Hin.
Qed.

(** *** [sendToClient] and [broadcastMessage] *)

Lemma broadcast_loop (msg : string) (excludeConn : option nat)
    (l : list (nat * ClientInfo)) (st : State) :
  foldl (fun st e =>
           if isTarget excludeConn e then sendToClient e.2 msg st
           else st) st l
  = set_wire
      (wire st
       ++ map (fun e => (conn e.2, withNewline msg))
            (filter (fun e => isTarget excludeConn e)
               l))
      st.
Proof.
  revert st. induction l as [|e l IH]; intros st; cbn [foldl].
  - rewrite filter_nil. cbn. by rewrite app_nil_r, set_wire_id.
  - rewrite IH.
    destruct (isTarget excludeConn e) eqn:E.
    + rewrite filter_cons_True by (apply Is_true_true_2, E).
      unfold sendToClient.
      rewrite set_wire_set_wire. cbn [wire set_wire map].
      by rewrite <- app_assoc.
    + rewrite filter_cons_False by (apply Is_true_false_2, E). done.
Qed.

Lemma broadcastMessage_spec (message : string) (excludeConn : option nat)
    (st : State) :
  broadcastMessage rangeClients message excludeConn st
  = set_wire
      (wire st
       ++ map (fun e => (conn e.2, withNewline message))
            (filter (fun e => isTarget excludeConn e)
               (rangeClients (clients st))))
      st.
Proof.
  unfold broadcastMessage. rewrite broadcast_loop.
  by rewrite withNewline_idem.
Qed.

(** What a broadcast sends to one connection: the message, once, if it
    is registered, active and not the excluded one. *)
Lemma broadcast_deliveredTo (msg : string) (excludeConn : option nat)
    (st : State) (k : nat) :
  wellKeyed st ->
  deliveredTo k
    (map (fun e => (conn e.2, msg))
       (filter (fun e => isTarget excludeConn e)
          (rangeClients (clients st))))
  = if isActive st k && negb (bool_decide (Some k = excludeConn))
    then [msg] else [].
Proof.
  intros Hwk.
  set (P := fun e : nat * ClientInfo => isTarget excludeConn e).
  transitivity
    (map (fun _ : nat * ClientInfo => msg)
       (filter (fun e => P e) (filter (fun e => e.1 = k)
                                (rangeClients (clients st))))).
  - assert (forall e, e ∈ rangeClients (clients st) -> conn e.2 = e.1) as Hc.
    { intros [k' ci] Hin. apply in_range in Hin. by apply Hwk. }
    revert Hc. generalize (rangeClients (clients st)) as l.
    induction l as [|e l IH]; intros Hc; [done|].
    assert (conn e.2 = e.1) as He by (apply Hc; left).
    assert (forall e, e ∈ l -> conn e.2 = e.1) as Hc'
      by (intros; apply Hc; by right).
    destruct (decide (P e)) as [HP|HP], (decide (e.1 = k)) as [Hk|Hk].
    + rewrite (filter_cons_True (fun e => e.1 = k)) by done.
      rewrite !filter_cons_True by done.
      rewrite !fmap_cons, deliveredTo_cons. cbn [fst snd]. rewrite He.
      rewrite decide_True by done. cbn [app]. f_equal. by apply IH.
    + rewrite (filter_cons_False (fun e => e.1 = k)) by done.
      rewrite !filter_cons_True by done.
      rewrite !fmap_cons, deliveredTo_cons. cbn [fst snd]. rewrite He.
      rewrite decide_False by done. by apply IH.
    + rewrite (filter_cons_True (fun e => e.1 = k)) by done.
      rewrite !filter_cons_False by done. by apply IH.
    + rewrite (filter_cons_False (fun e => e.1 = k)) by done.
      rewrite !filter_cons_False by done. by apply IH.
  - rewrite range_filter_key. unfold isActive.
    destruct (clients st !! k) as [ci|]; [|done].
    subst P.
    destruct (active ci && negb (bool_decide (Some k = excludeConn))) eqn:E.
    + rewrite filter_cons_True by (apply Is_true_true_2, E). done.
    + rewrite filter_cons_False by (apply Is_true_false_2, E). done.
Qed.

Lemma received_broadcast (message : string) (excludeConn : option nat)
    (st : State) (k : nat) :
  wellKeyed st ->
  received k (broadcastMessage rangeClients message excludeConn st)
  = received k st
    ++ (if isActive st k && negb (bool_decide (Some k = excludeConn))
        then [withNewline message] else []).
Proof.
  intros Hwk. rewrite broadcastMessage_spec, !received_wire.
  cbn [wire set_wire]. rewrite deliveredTo_app.
  by rewrite broadcast_deliveredTo.
Qed.

(** *** The lookup loops *)

Lemma findActive_Some (u : string) (st : State) (rc : ClientInfo) :
  findActive rangeClients u st = Some rc ->
  exists k, clients st !! k = Some rc /\ active rc = true /\ username rc = u.
Proof.
  unfold findActive.
  destruct (List.find _ _) as [[k ci]|] eqn:E; [|done].
  intros [= <-]. apply find_some in E as [Hin HP].
  apply list_elem_of_In, in_range in Hin.
  apply andb_true_iff in HP as [Ha Hu%bool_decide_eq_true].
  by exists k.
Qed.

Lemma findActive_None (u : string) (st : State) :
  findActive rangeClients u st = None ->
  forall k ci, clients st !! k = Some ci -> active ci = true ->
               username ci <> u.
Proof.
  unfold findActive.
  destruct (List.find _ _) as [[k ci]|] eqn:E; [done|].
  intros _ k ci Hk Ha Hu.
  apply in_range, list_elem_of_In in Hk.
  pose proof (find_none _ _ E _ Hk) as HP. cbn in HP.
  rewrite Ha, bool_decide_eq_true_2 in HP; done.
Qed.

Lemma alreadyExists_true (c : nat) (u : string) (st : State) :
  alreadyExists rangeClients c u st = true <->
  exists k ci, clients st !! k = Some ci /\ active ci = true
               /\ username ci = u /\ conn ci <> c.
Proof.
  unfold alreadyExists. rewrite existsb_exists. split.
  - intros [[k ci] [Hin HP]]. apply list_elem_of_In, in_range in Hin.
    cbn in HP. apply andb_true_iff in HP as [HP Hc].
    apply andb_true_iff in HP as [Ha Hu%bool_decide_eq_true].
    apply negb_true_iff, bool_decide_eq_false in Hc.
    by exists k, ci.
  - intros (k & ci & Hk & Ha & Hu & Hc). exists (k, ci). split.
    + by apply list_elem_of_In, in_range.
    + cbn. rewrite Ha, bool_decide_eq_true_2 by done.
      by rewrite bool_decide_eq_false_2.
Qed.

End Deliveries.

(** ** Effects of the primitive operations on the state *)

Section Frames.

Lemma set_chatLog_id (st : State) :
  set_chatLog (chatLogFileHandler st) st = st.
Proof. by destruct st. Qed.

Lemma logChatMessage_spec (message : string) (st : State) :
  logChatMessage message st
  = set_chatLog (logged (withNewline message) st) st.
Proof.
  unfold logChatMessage, logged.
  destruct (chatLogFileHandler st) as [f|] eqn:E; cbn; [done|].
  by rewrite <- E, set_chatLog_id.
Qed.

Lemma addMessageToHistory_spec (message : string) (st : State) :
  addMessageToHistory message st
  = set_chatHistory
      (lastN MAX_HISTORY_LINES (chatHistory st ++ [withNewline message])) st.
Proof.
  unfold addMessageToHistory. case_decide; [done|].
  by rewrite lastN_short by lia.
Qed.

Lemma withNewline_sentence (a b : string) :
  b <> "" -> HasSuffix b NL = false -> withNewline (a +:+ b) = a +:+ b +:+ NL.
Proof.
  intros Hb Hs. unfold withNewline.
  rewrite HasSuffix_append by done. rewrite Hs. by rewrite append_assoc.
Qed.

(** A line of text after a prefix that ends in a blank. *)
Lemma withNewline_text (a text : string) :
  noNewline text = true ->
  withNewline (a +:+ " " +:+ text) = a +:+ " " +:+ text +:+ NL.
Proof.
  intros Ht. destruct (decide (text = "")) as [->|Hne].
  - rewrite (withNewline_sentence a (" " +:+ "")); done.
  - rewrite <- (append_assoc a " " text).
    rewrite (withNewline_sentence (a +:+ " ") text);
      [by rewrite !append_assoc | done | by apply HasSuffix_noNewline].
Qed.

End Frames.

(** ** [TrimSpace] leaves no trailing newline *)

Section Trim.

Lemma length_substring_le (n : nat) (s : string) :
  String.length (String.substring 0 n s) <= n.
Proof.
  revert s. induction n as [|n IH]; intros [|c s]; cbn; try lia.
  specialize (IH s). lia.
Qed.

Lemma HasSuffix_nonempty (s e : string) :
  HasSuffix s e = true -> e <> "" -> s <> "".
Proof.
  intros H He ->. cbn in H. destruct e; [done|]. cbn in H. done.
Qed.

Lemma spaceRunes_nonempty (e : string) : In e spaceRunes -> e <> "".
Proof.
  intros Hin ->. vm_compute in Hin.
  repeat (destruct Hin as [Hin|Hin]; [discriminate|]). done.
Qed.

Lemma length_substring_from (n k : nat) (s : string) :
  String.length (String.substring n k s) <= String.length s - n.
Proof.
  revert n k. induction s as [|c s IH]; intros [|n] [|k]; cbn; try lia.
  - specialize (IH 0 k). lia.
  - apply IH.
  - apply IH.
Qed.

Lemma HasPrefix_nonempty (s e : string) :
  HasPrefix s e = true -> e <> "" -> s <> "".
Proof. intros H He ->. destruct e; [done|]. by cbn in H. Qed.

Lemma leadingSpace_Some (s : string) (n : nat) :
  leadingSpace s = Some n -> 1 <= n /\ s <> "".
Proof.
  unfold leadingSpace.
  destruct (List.find _ _) as [e|] eqn:E; [|done]. intros [= <-].
  apply find_some in E as [Hin Hs].
  pose proof (spaceRunes_nonempty e Hin) as He. split.
  - destruct e; [done | cbn; lia].
  - by eapply HasPrefix_nonempty.
Qed.

(** The fuel of [trimLeft] is enough: no white space is left in front. *)
Lemma trimLeft_done (fuel : nat) (s : string) :
  String.length s <= fuel -> leadingSpace (trimLeft fuel s) = None.
Proof.
  revert s. induction fuel as [|fuel IH]; intros s Hlen; cbn [trimLeft].
  - destruct s; [by vm_compute | cbn in Hlen; lia].
  - destruct (leadingSpace s) as [n|] eqn:E; [|done].
    apply leadingSpace_Some in E as [Hn Hs]. apply IH.
    unfold dropBytes.
    pose proof (length_substring_from n (String.length s - n) s).
    destruct s; [done|]. cbn [String.length] in *. lia.
Qed.

Lemma trailingSpace_Some (s : string) (n : nat) :
  trailingSpace s = Some n -> 1 <= n /\ s <> "".
Proof.
  unfold trailingSpace.
  destruct (List.find _ _) as [e|] eqn:E; [|done]. intros [= <-].
  apply find_some in E as [Hin Hs].
  pose proof (spaceRunes_nonempty e Hin) as He. split.
  - destruct e; [done | cbn; lia].
  - by eapply HasSuffix_nonempty.
Qed.

(** The fuel of [trimRight] is enough: no white space is left behind. *)
Lemma trimRight_done (fuel : nat) (s : string) :
  String.length s <= fuel -> trailingSpace (trimRight fuel s) = None.
Proof.
  revert s. induction fuel as [|fuel IH]; intros s Hlen; cbn [trimRight].
  - destruct s; [by vm_compute | cbn in Hlen; lia].
  - destruct (trailingSpace s) as [n|] eqn:E; [|done].
    apply trailingSpace_Some in E as [Hn Hs]. apply IH.
    unfold takeBytes.
    pose proof (length_substring_le (String.length s - n) s).
    destruct s; [done|]. cbn [String.length] in *. lia.
Qed.

(** What [TrimSpace] returns does not end in a newline. *)
Lemma TrimSpace_no_newline (s : string) :
  HasSuffix (TrimSpace s) NL = false.
Proof.
  unfold TrimSpace.
  pose proof (trimRight_done (String.length (trimLeft (String.length s) s))
                (trimLeft (String.length s) s) (le_n _)) as H.
  unfold trailingSpace in H.
  destruct (List.find _ _) as [e|] eqn:E; [done|].
  pose proof (find_none _ _ E NL) as Hn. cbn beta in Hn.
  apply Hn. unfold spaceRunes. cbn. auto.
Qed.

End Trim.

(** ** The handshake and the router *)

Section Router.

Variable rangeClients : gmap nat ClientInfo -> list (nat * ClientInfo).
Hypothesis rangeClients_perm :
  forall m, rangeClients m ≡ₚ map_to_list m.




(** *** The branches of the message loop *)

Lemma message_global (client : ClientInfo) (text : string) (st : State) :
  noNewline text = true ->
  HasPrefix (TrimSpace (text +:+ NL)) "PRIVMSG " = false ->
  HasPrefix (TrimSpace (text +:+ NL)) "GROUPMSG " = false ->
  let line := username client +:+ ": " +:+ text +:+ NL in
  handleConnection_message rangeClients client (text +:+ NL) st
  = set_wire
      (wire st
       ++ map (fun e => (conn e.2, line))
            (filter (fun e => isTarget None e)
               (rangeClients (clients st))))
      (set_chatHistory (lastN MAX_HISTORY_LINES (chatHistory st ++ [line]))
         (set_chatLog (logged line st) st)).
Proof.
  intros Ht Hp Hg line. unfold handleConnection_message.
  rewrite Hp, Hg.
  replace (username client +:+ ": " +:+ text +:+ NL)
    with ((username client +:+ ":" +:+ " " +:+ text) +:+ NL)
    by (by rewrite !append_assoc).
  rewrite TrimSuffix_NL, broadcastMessage_spec, addMessageToHistory_spec,
    logChatMessage_spec.
  rewrite withNewline_NL.
  rewrite <- (append_assoc (username client) ":" (" " +:+ text)).
  rewrite (withNewline_text (username client +:+ ":") text Ht).
  subst line. rewrite !append_assoc. done.
Qed.

(** The arguments of a command: [None] is the source's
    [len(parts) < 3 || parts[1] == "" || parts[2] == ""]. *)
Lemma privmsg_args (client : ClientInfo) (cmd : string) (st : State) :
  handleConnection_privmsg rangeClients client cmd st
  = match commandArgs cmd with
    | None =>
        sendToClient client
          "System: Invalid DM format. Use: PRIVMSG <user> <message>" st
    | Some (r, t) =>
        match findActive rangeClients r st with
        | Some rcpt =>
            addMessageToHistory
              ("DM from " +:+ username client +:+ " to " +:+ r +:+ ": " +:+ t)
              (logChatMessage
                 ("DM from " +:+ username client +:+ " to " +:+ r
                    +:+ ": " +:+ t)
                 (sendToClient client ("(DM to " +:+ r +:+ "): " +:+ t)
                    (sendToClient rcpt
                       ("(DM from " +:+ username client +:+ "): " +:+ t)
                       st)))
        | None =>
            sendToClient client
              ("System: User '" +:+ r +:+ "' not found or is offline.") st
        end
    end.
Proof.
  unfold handleConnection_privmsg, commandArgs.
  destruct (SplitN cmd 3) as [|p0 [|r [|t [|? ?]]]]; try done.
  by destruct (bool_decide (r = "") || bool_decide (t = "")).
Qed.

Lemma group_loop (gm : string) (l : list string) (st : State) :
  foldl (fun st memberUsername =>
           match findActive rangeClients memberUsername st with
           | Some c => sendToClient c gm st
           | None => st
           end) st l
  = set_wire
      (wire st
       ++ omap (fun m => (fun c => (conn c, withNewline gm))
                           <$> findActive rangeClients m st) l)
      st.
Proof.
  revert st. induction l as [|m l IH]; intros st; cbn [foldl].
  - cbn. by rewrite app_nil_r, set_wire_id.
  - rewrite IH. cbn [omap list_omap].
    destruct (findActive rangeClients m st) as [c|] eqn:E.
    + unfold sendToClient. rewrite set_wire_set_wire, wire_set_wire.
      rewrite <- app_assoc. done.
    + done.
Qed.

Lemma groupmsg_args (client : ClientInfo) (cmd : string) (st : State) :
  handleConnection_groupmsg rangeClients client cmd st
  = match commandArgs cmd with
    | None =>
        sendToClient client
          "System: Invalid GM format. Use: GROUPMSG <group> <message>" st
    | Some (g, t) =>
        match groups st !! g with
        | Some group =>
            let gm := "(#" +:+ name group +:+ " from " +:+ username client
                        +:+ "): " +:+ t in
            let gmLog := "GROUPMSG to #" +:+ name group +:+ " from "
                           +:+ username client +:+ ": " +:+ t in
            addMessageToHistory gmLog
              (logChatMessage gmLog
                 (sendToClient client ("(To #" +:+ name group +:+ "): " +:+ t)
                    (set_wire
                       (wire st
                        ++ omap (fun m => (fun c => (conn c, withNewline gm))
                                            <$> findActive rangeClients m st)
                             (members group))
                       st)))
        | None =>
            sendToClient client
              ("System: Group '#" +:+ g +:+ "' not found.") st
        end
    end.
Proof.
  unfold handleConnection_groupmsg, commandArgs.
  destruct (SplitN cmd 3) as [|p0 [|g [|t [|? ?]]]]; try done.
  destruct (bool_decide (g = "") || bool_decide (t = "")); [done|].
  destruct (groups st !! g) as [group|]; [|done].
  cbn zeta. by rewrite group_loop.
Qed.

Lemma commandArgs_command (cmd r t : string) :
  noSpace cmd = true -> noSpace r = true -> r <> "" -> t <> "" ->
  commandArgs (cmd +:+ " " +:+ r +:+ " " +:+ t) = Some (r, t).
Proof.
  intros Hc Hr Hrn Htn. unfold commandArgs.
  rewrite SplitN_command by done.
  by rewrite !bool_decide_eq_false_2.
Qed.

Lemma findActive_is_None (u : string) (st : State) :
  (forall k ci, clients st !! k = Some ci -> active ci = true ->
                username ci <> u) ->
  findActive rangeClients u st = None.
Proof.
  intros Hno. destruct (findActive rangeClients u st) as [rc|] eqn:E; [|done].
  apply (findActive_Some rangeClients rangeClients_perm) in E
    as (k & Hk & Ha & Hu).
  by destruct (Hno k rc).
Qed.

Lemma findActive_is_Some (u : string) (st : State) :
  (exists k ci, clients st !! k = Some ci /\ active ci = true
                /\ username ci = u) ->
  exists k rc, findActive rangeClients u st = Some rc
               /\ clients st !! k = Some rc /\ active rc = true
               /\ username rc = u.
Proof.
  intros (k & ci & Hk & Ha & Hu).
  destruct (findActive rangeClients u st) as [rc|] eqn:E.
  - apply (findActive_Some rangeClients rangeClients_perm) in E
      as (k' & Hk' & Ha' & Hu'). by exists k', rc.
  - by destruct (findActive_None rangeClients rangeClients_perm u st E k ci).
Qed.

(** The text of a command read off a trimmed line takes a newline. *)
Lemma withNewline_arg (a pre t : string) (message : string) :
  TrimSpace message = pre +:+ t -> t <> "" ->
  withNewline (a +:+ t) = a +:+ t +:+ NL.
Proof.
  intros E Ht. apply withNewline_sentence; [done|].
  rewrite <- (HasSuffix_append pre t Ht), <- E.
  apply TrimSpace_no_newline.
Qed.


(** *** Global messages *)

(** C5 (as the code has it). A line from an active sender that starts
    with neither [PRIVMSG ] nor [GROUPMSG ] once trimmed, the empty line
    included, is sent as [<sender>: <text>] and a newline to every
    registered active session, the sender among them, exactly once, and
    to no other connection; one entry is written to the log and one to
    the history; the registry is unchanged. *)
Theorem global_message (st : State) (client : ClientInfo) (text : string) :
  wellKeyed st ->
  clients st !! conn client = Some client -> active client = true ->
  noNewline text = true ->
  HasPrefix (TrimSpace (text +:+ NL)) "PRIVMSG " = false ->
  HasPrefix (TrimSpace (text +:+ NL)) "GROUPMSG " = false ->
  let st' := handleConnection_message rangeClients client (text +:+ NL) st in
  let line := username client +:+ ": " +:+ text +:+ NL in
  (forall k, received k st'
             = received k st ++ (if isActive st k then [line] else []))
  /\ received (conn client) st' = received (conn client) st ++ [line]
  /\ chatLogFileHandler st' = logged line st
  /\ chatHistory st' = lastN MAX_HISTORY_LINES (chatHistory st ++ [line])
  /\ clients st' = clients st.
Proof.
  intros Hwk Hcl Hact Ht Hp Hg st' line. subst st'.
  rewrite (message_global client text st Ht Hp Hg). fold line.
  assert (forall k,
    received k
      (set_wire
         (wire st
          ++ map (fun e => (conn e.2, line))
               (filter (fun e => isTarget None e)
                  (rangeClients (clients st))))
         (set_chatHistory
            (lastN MAX_HISTORY_LINES (chatHistory st ++ [line]))
            (set_chatLog (logged line st) st)))
    = received k st ++ (if isActive st k then [line] else [])) as Hrecv.
  { intros k. rewrite !received_wire, wire_set_wire, deliveredTo_app.
    rewrite (broadcast_deliveredTo rangeClients rangeClients_perm) by done.
    rewrite bool_decide_eq_false_2 by done.
    by rewrite andb_true_r. }
  split; [exact Hrecv|]. split; [|done].
  rewrite Hrecv. unfold isActive. by rewrite Hcl, Hact.
Qed.

(** *** Direct messages *)



(** *** Group messages *)

(** C7 (as the code has it). Group [friends] is [alice, bob] and the
    only active session is alice's.  When alice sends
    [GROUPMSG friends hey], alice, being a member with an active
    session, is written the member line [(#friends from alice): hey]
    and then the confirmation [(To #friends): hey]; nothing is written
    to any other connection (bob is skipped); one entry
    [GROUPMSG to #friends from alice: hey] goes to the log and to the
    history. *)
Theorem group_routing_friends (st : State) (a : nat) (client : ClientInfo) :
  wellKeyed st ->
  clients st !! a = Some client -> active client = true ->
  username client = "alice" ->
  groups st !! "friends"
  = Some {| name := "friends"; members := ["alice"; "bob"] |} ->
  (forall k ci, clients st !! k = Some ci -> active ci = true -> k = a) ->
  let st' := handleConnection_message rangeClients client
               ("GROUPMSG friends hey" +:+ NL) st in
  let gmLog := "GROUPMSG to #friends from alice: hey" +:+ NL in
  st' = set_wire
          (wire st ++ [(a, "(#friends from alice): hey" +:+ NL);
                       (a, "(To #friends): hey" +:+ NL)])
          (set_chatHistory
             (lastN MAX_HISTORY_LINES (chatHistory st ++ [gmLog]))
             (set_chatLog (logged gmLog st) st))
  /\ received a st'
     = received a st ++ ["(#friends from alice): hey" +:+ NL;
                         "(To #friends): hey" +:+ NL]
  /\ (forall k, k <> a -> received k st' = received k st).
Proof.
  intros Hwk Hcl Hact Hname Hgrp Honly st' gmLog.
  assert (st' = set_wire
          (wire st ++ [(a, "(#friends from alice): hey" +:+ NL);
                       (a, "(To #friends): hey" +:+ NL)])
          (set_chatHistory
             (lastN MAX_HISTORY_LINES (chatHistory st ++ [gmLog]))
             (set_chatLog (logged gmLog st) st))) as ->.
  { subst st'. unfold handleConnection_message.
    replace (TrimSpace ("GROUPMSG friends hey" +:+ NL))
      with "GROUPMSG friends hey" by (by vm_compute).
    replace (HasPrefix "GROUPMSG friends hey" "PRIVMSG ")
      with false by (by vm_compute).
    replace (HasPrefix "GROUPMSG friends hey" "GROUPMSG ")
      with true by (by vm_compute).
    rewrite groupmsg_args.
    replace (commandArgs "GROUPMSG friends hey")
      with (Some ("friends", "hey")) by (by vm_compute).
    rewrite Hgrp. cbn [name members]. cbn zeta.
    assert (findActive rangeClients "alice" st = Some client) as Halice.
    { destruct (findActive_is_Some "alice" st) as (k & rc & Hf & Hk & Ha & _).
      { by exists a, client. }
      rewrite Hf. rewrite (Honly k rc Hk Ha) in Hk. congruence. }
    assert (findActive rangeClients "bob" st = None) as Hbob.
    { apply findActive_is_None. intros k ci Hk Ha.
      rewrite (Honly k ci Hk Ha) in Hk.
      replace ci with client by congruence. by rewrite Hname. }
    cbn [omap list_omap]. rewrite Halice, Hbob.
    cbn [fmap option_fmap option_map].
    rewrite addMessageToHistory_spec, logChatMessage_spec.
    unfold sendToClient. rewrite Hname, (Hwk a client Hcl).
    subst gmLog. unfold logged.
    cbn [wire set_wire chatHistory set_chatHistory set_chatLog
         chatLogFileHandler clients allowedUsernames groups now].
    rewrite <- app_assoc. f_equal; by vm_compute. }
  split; [done|]. split.
  - rewrite !received_wire, wire_set_wire, deliveredTo_app.
    f_equal. rewrite !deliveredTo_cons, !decide_True by done. done.
  - intros k Hk. rewrite !received_wire, wire_set_wire, deliveredTo_app.
    rewrite !deliveredTo_cons, !decide_False by done.
    cbn. by rewrite app_nil_r.
Qed.


(** *** What is stored, and the error replies *)




(** *** Leaving *)



(** *** Joining *)

Lemma chatHistory_sendToClient (client : ClientInfo) (message : string)
    (st : State) :
  chatHistory (sendToClient client message st) = chatHistory st.
Proof. done. Qed.

Lemma replay_loop (client : ClientInfo) (l : list string) (st : State) :
  foldl (fun st histMsg => sendToClient client histMsg st) st l
  = set_wire (wire st ++ map (fun h => (conn client, withNewline h)) l) st.
Proof.
  revert st. induction l as [|h l IH]; intros st; cbn [foldl map].
  - by rewrite app_nil_r, set_wire_id.
  - rewrite IH. unfold sendToClient.
    rewrite set_wire_set_wire, wire_set_wire. by rewrite <- app_assoc.
Qed.


End Router.

(** ** Reachable states *)

Section Reachability.

Variable rangeClients : gmap nat ClientInfo -> list (nat * ClientInfo).
Hypothesis rangeClients_perm :
  forall m, rangeClients m ≡ₚ map_to_list m.

Variable allowed : gmap string bool.
Variable groups0 : gmap string GroupInfo.

Lemma clients_username (client : ClientInfo) (line : string) (st : State) :
  clients (handleConnection_username rangeClients client line st).1
  = clients st.
Proof.
  unfold handleConnection_username. by repeat case_match.
Qed.

Lemma clients_welcome (client : ClientInfo) (u : string) (st : State) :
  clients (handleConnection_welcome client u st) = clients st.
Proof.
  unfold handleConnection_welcome. cbn zeta. case_decide; [|done].
  by rewrite replay_loop.
Qed.

Lemma clients_join (c : nat) (u : string) (st : State) :
  clients (handleConnection_join rangeClients c u st) = clients st.
Proof.
  unfold handleConnection_join.
  by rewrite broadcastMessage_spec, addMessageToHistory_spec,
    logChatMessage_spec.
Qed.

Lemma clients_message (client : ClientInfo) (message : string) (st : State) :
  clients (handleConnection_message rangeClients client message st)
  = clients st.
Proof.
  unfold handleConnection_message.
  rewrite privmsg_args, groupmsg_args.
  repeat case_match;
    rewrite ?broadcastMessage_spec, ?addMessageToHistory_spec,
      ?logChatMessage_spec; done.
Qed.

Lemma clients_deferred (c : nat) (st : State) :
  clients (handleConnection_deferred rangeClients c st)
  = delete c (clients st).
Proof.
  unfold handleConnection_deferred.
  destruct (clients st !! c) as [ci|] eqn:E.
  - destruct (active ci); [|done].
    by rewrite broadcastMessage_spec, addMessageToHistory_spec,
      logChatMessage_spec.
  - symmetry. by apply delete_id.
Qed.

Lemma registryInv_initial : registryInv (initial allowed groups0).
Proof. intros c. cbn. rewrite !lookup_empty. by left. Qed.

(** A step of connection [c0] that leaves the registry alone. *)
Lemma registryInv_goto (s : Server) (c0 : nat) (pc' : Pc) (st' : State) :
  registryInv s ->
  clients st' = clients (state s) ->
  (forall ci, clients (state s) !! c0 = Some ci -> pcEntry pc' ci) ->
  (clients (state s) !! c0 = None -> pc' = Closed) ->
  registryInv (goto c0 pc' st' s).
Proof.
  intros Hinv Hcl Hentry Hnone c. specialize (Hinv c).
  unfold goto. cbn [state pcs]. rewrite Hcl.
  destruct (decide (c = c0)) as [->|Hne].
  - rewrite lookup_insert_eq.
    destruct (clients (state s) !! c0) as [ci|] eqn:E.
    + destruct Hinv as [Hc _]. split; [done|]. exists pc'. auto.
    + right. by rewrite Hnone.
  - by rewrite lookup_insert_ne.
Qed.

(** A step of connection [c0] that writes its registry entry. *)
Lemma registryInv_insert (s : Server) (c0 : nat) (pc' : Pc) (st' : State)
    (ci : ClientInfo) :
  registryInv s ->
  clients st' = <[c0 := ci]> (clients (state s)) ->
  conn ci = c0 -> pcEntry pc' ci ->
  registryInv (goto c0 pc' st' s).
Proof.
  intros Hinv Hcl Hc Hentry c. specialize (Hinv c).
  unfold goto. cbn [state pcs]. rewrite Hcl.
  destruct (decide (c = c0)) as [->|Hne].
  - rewrite !lookup_insert_eq. split; [done|]. by exists pc'.
  - by rewrite !lookup_insert_ne.
Qed.

Lemma username_pass (client : ClientInfo) (line u : string)
    (st st' : State) :
  handleConnection_username rangeClients client line st = (st', Some u) ->
  st' = st /\ u <> "".
Proof.
  unfold handleConnection_username.
  case_bool_decide as E; [done|]. repeat case_match; try done.
  by intros [= <- <-].
Qed.

Lemma registryInv_step (s s' : Server) (e : Event) :
  registryInv s -> step rangeClients s e = Some s' -> registryInv s'.
Proof.
  intros Hinv. destruct e as [c|c line|c|c|c|c|c message|c|ts]; cbn [step].
  - destruct (pcs s !! c) eqn:Hpc; [done|]. intros [= <-].
    eapply registryInv_insert; [done|reflexivity|done|done].
  - destruct (pcs s !! c) as [[| | | | | |]|] eqn:Hpc; try done.
    destruct (clients (state s) !! c) as [client|] eqn:Hcl; [|done].
    destruct (isLine line); [|done].
    pose proof (clients_username client line (state s)) as Hsame.
    pose proof (Hinv c) as Hc. rewrite Hcl, Hpc in Hc.
    destruct Hc as (_ & pc & [= <-] & Hentry). cbn in Hentry.
    destruct (handleConnection_username _ _ _ _) as [st' [u|]] eqn:Hu;
      intros [= <-]; (apply registryInv_goto; [done|done| |congruence]);
      intros ci; rewrite Hcl; intros [= <-]; cbn.
    + split; [done|]. by apply username_pass in Hu as [_ ?].
    + congruence.
  - pose proof (Hinv c) as Hc.
    destruct (pcs s !! c) as [[| | | | | |]|] eqn:Hpc; try done;
      intros [= <-]; (apply registryInv_goto; [done|done| |]);
      try (intros Hn; rewrite Hn in Hc; by destruct Hc);
      intros ci Hcl; rewrite Hcl in Hc;
      destruct Hc as (_ & pc & [= <-] & Hentry); cbn in *.
    + congruence.
    + by destruct Hentry.
  - pose proof (Hinv c) as Hc.
    destruct (pcs s !! c) as [[|u| | | | |]|] eqn:Hpc; try done.
    intros [= <-].
    eapply registryInv_insert; [done|reflexivity|done|].
    destruct (clients (state s) !! c) as [ci|]; [|by destruct Hc].
    destruct Hc as (_ & pc & [= <-] & _ & Hu). done.
  - pose proof (Hinv c) as Hc.
    destruct (pcs s !! c) as [[| | | | | |]|] eqn:Hpc; try done.
    destruct (clients (state s) !! c) as [client|] eqn:Hcl; [|done].
    intros [= <-].
    apply registryInv_goto; [done|apply clients_welcome| |congruence].
    intros ci. rewrite Hcl. intros [= <-].
    by destruct Hc as (_ & pc & [= <-] & Hentry).
  - pose proof (Hinv c) as Hc.
    destruct (pcs s !! c) as [[| | | | | |]|] eqn:Hpc; try done.
    intros [= <-].
    apply registryInv_goto; [done|apply clients_join| |].
    + intros ci Hcl. rewrite Hcl in Hc.
      destruct Hc as (_ & pc & [= <-] & Ha & Hu & Hne). cbn.
      split; [done|]. by rewrite Hu.
    + intros Hn. rewrite Hn in Hc. by destruct Hc.
  - pose proof (Hinv c) as Hc.
    destruct (pcs s !! c) as [[| | | | | |]|] eqn:Hpc; try done.
    destruct (clients (state s) !! c) as [client|] eqn:Hcl; [|done].
    destruct (isLine message); [|done]. intros [= <-].
    apply registryInv_goto; [done|apply clients_message| |congruence].
    intros ci. rewrite Hcl. intros [= <-].
    by destruct Hc as (_ & pc & [= <-] & Hentry).
  - destruct (pcs s !! c) as [[| | | | | |]|] eqn:Hpc; try done.
    intros [= <-]. intros c'. specialize (Hinv c').
    unfold goto. cbn [state pcs]. rewrite clients_deferred.
    destruct (decide (c' = c)) as [->|Hne].
    + rewrite lookup_delete_eq, lookup_insert_eq. by right.
    + by rewrite lookup_delete_ne, lookup_insert_ne.
  - intros [= <-]. exact Hinv.
Qed.

Lemma registryInv_run (evs : list Event) (s s' : Server) :
  registryInv s -> run rangeClients s evs = Some s' -> registryInv s'.
Proof.
  revert s. induction evs as [|e evs IH]; intros s Hinv; cbn [run].
  - by intros [= <-].
  - destruct (step rangeClients s e) as [s1|] eqn:E; [|done].
    apply IH. by eapply registryInv_step.
Qed.

Lemma registryInv_reachable (s : Server) :
  Reachable rangeClients allowed groups0 s -> registryInv s.
Proof.
  intros [evs Hrun]. eapply registryInv_run; [|exact Hrun].
  apply registryInv_initial.
Qed.

Lemma reachable_wellKeyed (s : Server) :
  Reachable rangeClients allowed groups0 s -> wellKeyed (state s).
Proof.
  intros Hinv%registryInv_reachable k ci Hk.
  specialize (Hinv k). rewrite Hk in Hinv. by destruct Hinv.
Qed.

(** C2 (as the code has it). In every reachable state the registry
    holds exactly the connections whose goroutine has registered (which
    it does on accept, before the handshake) and has not yet run its
    deferred function.  The entry of a connection is inactive while it
    awaits its username and while its checked username waits for the
    write lock, and active, under the checked username, from the
    activation on. *)
Theorem registry_membership (s : Server) (c : nat) :
  Reachable rangeClients allowed groups0 s ->
  (clients (state s) !! c = None
   <-> pcs s !! c = None \/ pcs s !! c = Some Closed)
  /\ (forall ci, clients (state s) !! c = Some ci ->
        conn ci = c
        /\ (pcs s !! c = Some AwaitingUsername -> active ci = false)
        /\ (forall u, pcs s !! c = Some (Checked u) -> active ci = false)
        /\ (forall u, pcs s !! c = Some (Activated u)
                      \/ pcs s !! c = Some (Welcomed u) ->
                      active ci = true /\ username ci = u)
        /\ (pcs s !! c = Some InLoop -> active ci = true)).
Proof.
  intros Hinv%registryInv_reachable. specialize (Hinv c). split.
  - destruct (clients (state s) !! c) as [ci|]; [|done].
    destruct Hinv as (_ & pc & Hpc & Hentry). split; [done|].
    rewrite Hpc. intros [?|[= ->]]; done.
  - intros ci Hci. rewrite Hci in Hinv.
    destruct Hinv as (Hc & pc & Hpc & Hentry). rewrite Hpc.
    split; [done|].
    split; [by intros [= ->]|].
  split; [intros u [= ->]; by destruct Hentry|].
  split; [|intros [= ->]; by destruct Hentry].
  intros u [[= ->]|[= ->]]; by destruct Hentry as (? & ? & _).
Qed.

(** In a reachable state every active registry entry has a username. *)
Lemma reachable_active_named (s : Server) (c : nat) (ci : ClientInfo) :
  Reachable rangeClients allowed groups0 s ->
  clients (state s) !! c = Some ci -> active ci = true -> username ci <> "".
Proof.
  intros Hinv%registryInv_reachable Hci Ha. specialize (Hinv c).
  rewrite Hci in Hinv. destruct Hinv as (_ & pc & _ & Hentry).
  destruct pc; cbn in Hentry; try (destruct Hentry; congruence); auto.
  - congruence.
  - by destruct Hentry as (_ & <- & ?).
  - by destruct Hentry as (_ & <- & ?).
Qed.

(** Once the goroutine of a connection has returned, the only step left
    to it is its deferred function, which takes it out of the registry:
    a rejected handshake can never become active. *)
Lemma returning_closes (s s' : Server) (e : Event) (c : nat) :
  pcs s !! c = Some Returning ->
  step rangeClients s e = Some s' ->
  pcs s' !! c = Some Returning
  \/ (e = EvDeferred c /\ pcs s' !! c = Some Closed
      /\ clients (state s') !! c = None).
Proof.
  intros Hpc.
  destruct e as [c0|c0 line|c0|c0|c0|c0|c0 message|c0|ts]; cbn [step];
    try (destruct (decide (c0 = c)) as [->|Hne];
         [rewrite Hpc; try done
         |repeat case_match; try done; intros [= <-]; left; cbn;
          by rewrite lookup_insert_ne]).
  - intros [= <-]. right. split; [done|]. cbn.
    by rewrite lookup_insert_eq, clients_deferred, lookup_delete_eq.
  - intros [= <-]. by left.
Qed.

(** When the check and the activation of a login run without another
    login in between, uniqueness is kept. *)
Lemma uniqueActive_login (st st' : State) (c : nat) (client : ClientInfo)
    (line u : string) :
  wellKeyed st -> uniqueActive st ->
  conn client = c ->
  handleConnection_username rangeClients client line st = (st', Some u) ->
  uniqueActive (handleConnection_activate c u st').
Proof.
  intros Hwk Huniq Hc Hcheck.
  assert (st' = st /\ ~ usernameInUse c u st) as [-> Hfree].
  { revert Hcheck. unfold handleConnection_username.
    repeat case_match; try done. intros [= <- <-]. split; [done|].
    rewrite <- Hc. intros Huse.
    apply (alreadyExists_true rangeClients rangeClients_perm) in Huse.
    congruence. }
  intros k1 k2 c1 c2. unfold handleConnection_activate. cbn [clients set_clients].
  destruct (decide (k1 = c)) as [->|H1], (decide (k2 = c)) as [->|H2];
    rewrite ?lookup_insert_eq, ?lookup_insert_ne by done; [done| | |].
  - intros [= <-] Hk2 _ Ha2 Hu. cbn in Hu. destruct Hfree.
    exists k2, c2. repeat split; [done..|]. by rewrite (Hwk k2 c2 Hk2).
  - intros Hk1 [= <-] Ha1 _ Hu. cbn in Hu. destruct Hfree.
    exists k1, c1. repeat split; [done..|]. by rewrite (Hwk k1 c1 Hk1).
  - apply Huniq.
Qed.

End Reachability.

(** ** Scenarios *)

Section Scenarios.

Ltac map_cases H :=
  apply elem_of_map_to_list in H; vm_compute in H;
  repeat (apply elem_of_cons in H as [H|H]; [injection H as -> ->|]);
  [..|by apply not_elem_of_nil in H].

Lemma map_to_list_perm (m : gmap nat ClientInfo) :
  map_to_list m ≡ₚ map_to_list m.
Proof. reflexivity. Defined.

Lemma demo3_reachable :
  Reachable map_to_list config_users config_groups demo3.
Proof. exists demo3_events. vm_compute. reflexivity. Qed.

Lemma demoAlice_reachable :
  Reachable map_to_list config_users config_groups demoAlice.
Proof. exists demoAlice_events. vm_compute. reflexivity. Qed.

Lemma demo3_alice : clients (state demo3) !! 0 = Some alice.
Proof. vm_compute. reflexivity. Qed.

(** C1. Two connections send the username [alice]; both pass the check
    of lines 378-388 before either takes the write lock of line 401;
    both are then activated: the registry holds two active sessions
    called [alice]. *)
Theorem username_race :
  exists s,
    run map_to_list (initial (allow ["alice"]) ∅)
      [EvAccept 0; EvAccept 1;
       EvUsernameLine 0 ("alice" +:+ NL); EvUsernameLine 1 ("alice" +:+ NL);
       EvActivate 0; EvActivate 1] = Some s
    /\ clients (state s) !! 0
       = Some {| conn := 0; username := "alice"; active := true |}
    /\ clients (state s) !! 1
       = Some {| conn := 1; username := "alice"; active := true |}
    /\ ~ uniqueActive (state s).
Proof.
  eexists. split; [vm_compute; reflexivity|].
  split; [by vm_compute|]. split; [by vm_compute|].
  intros Hu.
  specialize (Hu 0 1 {| conn := 0; username := "alice"; active := true |}
                {| conn := 1; username := "alice"; active := true |}).
  discriminate Hu; by vm_compute.
Qed.

(** C2, the claim as stated fails: a connection that has been accepted
    and has not yet sent its username is in the registry, inactive. *)
Lemma inactive_session_registered :
  ~ (forall s,
       Reachable map_to_list (allow ["alice"]) ∅ s ->
       forall c ci, clients (state s) !! c = Some ci -> active ci = true).
Proof.
  intros H.
  specialize (H (default (initial ∅ ∅)
                   (run map_to_list (initial (allow ["alice"]) ∅)
                      [EvAccept 0]))).
  discriminate (H ltac:(exists [EvAccept 0]; by vm_compute) 0
                  {| conn := 0; username := ""; active := false |}
                  ltac:(by vm_compute)).
Qed.

Lemma registry_membership_witness :
  Reachable map_to_list config_users config_groups demoAlice
  /\ pcs demoAlice !! 1 = Some AwaitingUsername
  /\ active bobPending = false.
Proof.
  split; [apply demoAlice_reachable|]. split; [by vm_compute|].
  refine (proj1 (proj2 (proj2
    (registry_membership map_to_list config_users config_groups
       demoAlice 1 demoAlice_reachable) bobPending _)) _);
    by vm_compute.
Defined.


Lemma history_bound_witness :
  length (chatHistory (state (initial ∅ ∅))) <= MAX_HISTORY_LINES
  /\ chatHistory (appendAll lines25 (state (initial ∅ ∅)))
     = map withNewline (drop 5 lines25).
Proof.
  assert (length (chatHistory (state (initial ∅ ∅))) <= MAX_HISTORY_LINES)
    as H by (vm_compute; lia).
  split; [exact H|].
  apply (proj2 (proj2 (proj2 (proj2
    (history_bound (state (initial ∅ ∅)) lines25 H))))); by vm_compute.
Defined.

(** C5, the claim as stated fails: the empty line of an active sender is
    broadcast like any other global message. *)
Lemma empty_line_broadcast :
  ~ (forall st client,
       wellKeyed st -> clients st !! conn client = Some client ->
       active client = true ->
       wire (handleConnection_message map_to_list client NL st) = wire st).
Proof.
  intros H.
  specialize (H (state demo3) alice
                (reachable_wellKeyed _ _ _ _ demo3_reachable)
                demo3_alice eq_refl).
  vm_compute in H. discriminate H.
Qed.

Lemma global_message_witness :
  received 1 (handleConnection_message map_to_list alice ("hi" +:+ NL)
                (state demo3))
  = received 1 (state demo3) ++ ["alice: hi" +:+ NL]
  /\ received 0 (handleConnection_message map_to_list alice NL
                   (state demo3))
     = received 0 (state demo3) ++ ["alice: " +:+ NL].
Proof.
  split.
  - apply (proj1
      (global_message map_to_list map_to_list_perm (state demo3) alice "hi"
         (reachable_wellKeyed _ _ _ _ demo3_reachable) demo3_alice eq_refl
         ltac:(by vm_compute) ltac:(by vm_compute) ltac:(by vm_compute))
      1).
  - apply (proj1 (proj2
      (global_message map_to_list map_to_list_perm (state demo3) alice ""
         (reachable_wellKeyed _ _ _ _ demo3_reachable) demo3_alice eq_refl
         ltac:(by vm_compute) ltac:(by vm_compute) ltac:(by vm_compute)))).
Defined.


Lemma demoAlice_alice : clients (state demoAlice) !! 0 = Some alice.
Proof. vm_compute. reflexivity. Qed.

Lemma demoAlice_only (k : nat) (ci : ClientInfo) :
  clients (state demoAlice) !! k = Some ci -> active ci = true -> k = 0.
Proof. intros Hk Ha. map_cases Hk; done. Qed.

(** C7, the claim as stated fails: alice is a member of [friends] with
    an active session, so she is written the member line before the
    confirmation. *)
Lemma sender_gets_member_line :
  received 0 (handleConnection_message map_to_list alice
                ("GROUPMSG friends hey" +:+ NL) (state demoAlice))
  <> received 0 (state demoAlice) ++ ["(To #friends): hey" +:+ NL].
Proof. vm_compute. discriminate. Qed.

Lemma group_routing_friends_witness :
  received 0 (handleConnection_message map_to_list alice
                ("GROUPMSG friends hey" +:+ NL) (state demoAlice))
  = received 0 (state demoAlice)
    ++ ["(#friends from alice): hey" +:+ NL; "(To #friends): hey" +:+ NL]
  /\ received 1 (handleConnection_message map_to_list alice
                   ("GROUPMSG friends hey" +:+ NL) (state demoAlice))
     = received 1 (state demoAlice).
Proof.
  pose proof (group_routing_friends map_to_list map_to_list_perm
                (state demoAlice) 0 alice
                (reachable_wellKeyed _ _ _ _ demoAlice_reachable)
                demoAlice_alice eq_refl eq_refl
                ltac:(by vm_compute) demoAlice_only) as (_ & H0 & H1).
  split; [exact H0 | by apply H1].
Defined.








End Scenarios.

(** * Further properties of the code *)

Section Effects.
Variable rangeClients : gmap nat ClientInfo -> list (nat * ClientInfo).
Hypothesis rangeClients_perm : forall m, rangeClients m ≡ₚ map_to_list m.

Lemma withNewline_ends (m : string) : HasSuffix (withNewline m) NL = true.
Proof.
  unfold withNewline. destruct (HasSuffix m NL) eqn:E; [done|].
  apply HasSuffix_NL.
Qed.

Lemma effect_writes (P : nat -> Prop) (st : State) (w : list (nat * string)) :
  Forall (fun e => P e.1 /\ HasSuffix e.2 NL = true) w ->
  stepEffect P st (set_wire (wire st ++ w) st).
Proof.
  intros Hw. repeat split; try done.
  - by exists w.
  - by left.
Qed.

Lemma effect_stored (P : nat -> Prop) (st : State) (m : string)
    (w : list (nat * string)) :
  Forall (fun e => P e.1 /\ HasSuffix e.2 NL = true) w ->
  stepEffect P st
    (set_wire (wire st ++ w)
       (addMessageToHistory m (logChatMessage m st))).
Proof.
  intros Hw. rewrite addMessageToHistory_spec, logChatMessage_spec.
  repeat split; try done.
  - by exists w.
  - right. exists (withNewline m). split; [apply withNewline_ends|done].
Qed.

Lemma Forall_broadcast (P : nat -> Prop) (msg : string) (ex : option nat)
    (m : gmap nat ClientInfo) :
  (forall k ci, m !! k = Some ci -> P (conn ci)) ->
  Forall (fun e => P e.1 /\ HasSuffix e.2 NL = true)
    (map (fun e => (conn e.2, withNewline msg))
       (filter (fun e => isTarget ex e) (rangeClients m))).
Proof.
  intros HP. apply Forall_fmap, Forall_forall. intros [k ci] Hin.
  apply list_elem_of_filter in Hin as [_ Hin].
  apply (in_range rangeClients rangeClients_perm) in Hin. cbn.
  split; [by eapply HP | apply withNewline_ends].
Qed.

Lemma effect_refl (P : nat -> Prop) (st : State) : stepEffect P st st.
Proof.
  repeat split; try done; [|by left].
  exists []. by rewrite app_nil_r.
Qed.

Lemma effect_send (P : nat -> Prop) (client : ClientInfo) (m : string)
    (st : State) :
  P (conn client) -> stepEffect P st (sendToClient client m st).
Proof.
  intros Hc. apply effect_writes, Forall_singleton.
  split; [done | apply withNewline_ends].
Qed.

Lemma stored_set_wire (m : string) (w : list (nat * string)) (st : State) :
  addMessageToHistory m (logChatMessage m (set_wire w st))
  = set_wire w (addMessageToHistory m (logChatMessage m st)).
Proof. by rewrite !addMessageToHistory_spec, !logChatMessage_spec. Qed.

Lemma stored_wire (m : string) (st : State) :
  wire (addMessageToHistory m (logChatMessage m st)) = wire st.
Proof. by rewrite addMessageToHistory_spec, logChatMessage_spec. Qed.

Lemma stored_clients (m : string) (st : State) :
  clients (addMessageToHistory m (logChatMessage m st)) = clients st.
Proof. by rewrite addMessageToHistory_spec, logChatMessage_spec. Qed.

Lemma effect_register (P : nat -> Prop) (c : nat) (st : State) :
  P c -> stepEffect P st (handleConnection_register c st).
Proof.
  intros Hc. unfold handleConnection_register, sendToClient. cbn zeta.
  repeat split; try done; [|by left].
  eexists. split; [reflexivity|]. apply Forall_singleton. cbn.
  split; [done | apply withNewline_ends].
Qed.

Lemma effect_username (P : nat -> Prop) (client : ClientInfo) (line : string)
    (st : State) :
  P (conn client) ->
  stepEffect P st (handleConnection_username rangeClients client line st).1.
Proof.
  intros Hc. unfold handleConnection_username.
  repeat case_match; cbn [fst]; try (by apply effect_send).
  apply effect_refl.
Qed.

Lemma effect_welcome (P : nat -> Prop) (client : ClientInfo) (u : string)
    (st : State) :
  P (conn client) -> stepEffect P st (handleConnection_welcome client u st).
Proof.
  intros Hc. unfold handleConnection_welcome. cbn zeta.
  rewrite !chatHistory_sendToClient. case_decide; [|by apply effect_send].
  rewrite replay_loop. unfold sendToClient.
  rewrite !set_wire_set_wire, !wire_set_wire, <- !app_assoc.
  apply effect_writes.
  repeat (apply Forall_cons; split;
          [split; [done | apply withNewline_ends]|]).
  apply Forall_app. split.
  - apply Forall_fmap, Forall_forall. intros h _. cbn.
    split; [done | apply withNewline_ends].
  - apply Forall_singleton. split; [done | apply withNewline_ends].
Qed.

Lemma effect_stored_broadcast (P : nat -> Prop) (m g : string)
    (ex : option nat) (st : State) :
  (forall k ci, clients st !! k = Some ci -> P (conn ci)) ->
  stepEffect P st
    (broadcastMessage rangeClients g ex
       (addMessageToHistory m (logChatMessage m st))).
Proof.
  intros HP. rewrite broadcastMessage_spec, stored_wire, stored_clients.
  apply effect_stored. by apply Forall_broadcast.
Qed.

Lemma effect_join (P : nat -> Prop) (c : nat) (u : string) (st : State) :
  (forall k ci, clients st !! k = Some ci -> P (conn ci)) ->
  stepEffect P st (handleConnection_join rangeClients c u st).
Proof. intros HP. by apply effect_stored_broadcast. Qed.

Lemma effect_message (P : nat -> Prop) (client : ClientInfo)
    (message : string) (st : State) :
  P (conn client) ->
  (forall k ci, clients st !! k = Some ci -> P (conn ci)) ->
  stepEffect P st (handleConnection_message rangeClients client message st).
Proof.
  intros Hc HP. unfold handleConnection_message.
  destruct (HasPrefix _ "PRIVMSG ").
  { rewrite privmsg_args.
    destruct (commandArgs _) as [[r t]|]; [|by apply effect_send].
    destruct (findActive rangeClients r st) as [rcpt|] eqn:E;
      [|by apply effect_send].
    apply (findActive_Some rangeClients rangeClients_perm) in E
      as (k & Hk & _).
    unfold sendToClient. rewrite set_wire_set_wire, wire_set_wire.
    rewrite stored_set_wire, <- app_assoc. apply effect_stored.
    cbn [app].
    repeat (apply Forall_cons; split;
            [split; [by eauto | apply withNewline_ends]|]).
    by constructor. }
  destruct (HasPrefix _ "GROUPMSG ").
  { rewrite groupmsg_args.
    destruct (commandArgs _) as [[g t]|]; [|by apply effect_send].
    destruct (groups st !! g) as [group|]; [|by apply effect_send].
    cbn zeta. unfold sendToClient.
    rewrite set_wire_set_wire, wire_set_wire.
    rewrite stored_set_wire, <- app_assoc. apply effect_stored.
    apply Forall_app. split.
    - apply Forall_forall. intros [k m] Hin.
      apply list_elem_of_omap in Hin as (member & _ & Hm).
      destruct (findActive rangeClients member st) as [c0|] eqn:E; [|done].
      injection Hm as <- <-.
      apply (findActive_Some rangeClients rangeClients_perm) in E
        as (k & Hk & _).
      split; [by eauto | apply withNewline_ends].
    - apply Forall_singleton. split; [done | apply withNewline_ends]. }
  by apply effect_stored_broadcast.
Qed.

Lemma effect_deferred (P : nat -> Prop) (c : nat) (st : State) :
  (forall k ci, clients st !! k = Some ci -> k <> c -> P (conn ci)) ->
  stepEffect P st (handleConnection_deferred rangeClients c st).
Proof.
  intros HP. unfold handleConnection_deferred.
  destruct (clients st !! c) as [ci|] eqn:E; [|apply effect_refl].
  destruct (active ci).
  - apply (effect_stored_broadcast P _ _ None
             (set_clients (delete c (clients st)) st)).
    cbn. intros k ci' [Hne Hk]%lookup_delete_Some. eauto.
  - repeat split; try done; [|by left].
    exists []. by rewrite app_nil_r.
Qed.

End Effects.

Section Invariants.
Variable rangeClients : gmap nat ClientInfo -> list (nat * ClientInfo).
Hypothesis rangeClients_perm : forall m, rangeClients m ≡ₚ map_to_list m.
Variable allowed : gmap string bool.
Variable groups0 : gmap string GroupInfo.

Lemma registryInv_wellKeyed (s : Server) :
  registryInv s -> wellKeyed (state s).
Proof.
  intros Hinv k ci Hk. specialize (Hinv k). rewrite Hk in Hinv.
  by destruct Hinv.
Qed.

Lemma step_effect (s s' : Server) (e : Event) :
  registryInv s -> step rangeClients s e = Some s' ->
  (exists ts, e = EvTick ts /\ state s' = set_now ts (state s))
  \/ stepEffect (fun k => is_Some (clients (state s) !! k)
                          \/ is_Some (clients (state s') !! k))
       (state s) (state s').
Proof.
  intros Hinv. pose proof (registryInv_wellKeyed s Hinv) as Hwk.
  destruct e as [c|c line|c|c|c|c|c message|c|ts]; cbn [step];
    [..|intros [= <-]; left; by exists ts]; intros Hstep; right.
  - destruct (pcs s !! c); [done|]. injection Hstep as <-. cbn [state goto].
    apply effect_register. right. cbn. rewrite lookup_insert_eq. by eexists.
  - destruct (pcs s !! c) as [[| | | | | |]|]; try done.
    destruct (clients (state s) !! c) as [client|] eqn:Hcl; [|done].
    destruct (isLine line); [|done].
    pose proof (effect_username rangeClients
                  (fun k => is_Some (clients (state s) !! k)
                            \/ is_Some (clients (state s') !! k))
                  client line (state s)) as He.
    destruct (handleConnection_username _ _ _ _) as [st' [u|]];
      injection Hstep as <-; cbn [state goto fst] in *; apply He;
      left; rewrite (Hwk c client Hcl); by eexists.
  - destruct (pcs s !! c) as [[| | | | | |]|]; try done;
      injection Hstep as <-; apply effect_refl.
  - destruct (pcs s !! c) as [[| | | | | |]|]; try done.
    injection Hstep as <-. cbn [state goto].
    repeat split; try done; [|by left]. exists []. by rewrite app_nil_r.
  - destruct (pcs s !! c) as [[| | | | | |]|]; try done.
    destruct (clients (state s) !! c) as [client|] eqn:Hcl; [|done].
    injection Hstep as <-. cbn [state goto].
    apply effect_welcome. left. rewrite (Hwk c client Hcl). by eexists.
  - destruct (pcs s !! c) as [[| | | | | |]|]; try done.
    injection Hstep as <-. cbn [state goto].
    apply effect_join; [done|]. intros k ci Hk.
    left. rewrite (Hwk k ci Hk). by eexists.
  - destruct (pcs s !! c) as [[| | | | | |]|]; try done.
    destruct (clients (state s) !! c) as [client|] eqn:Hcl; [|done].
    destruct (isLine message); [|done].
    injection Hstep as <-. cbn [state goto].
    apply effect_message; [done| |].
    + left. rewrite (Hwk c client Hcl). by eexists.
    + intros k ci Hk. left. rewrite (Hwk k ci Hk). by eexists.
  - destruct (pcs s !! c) as [[| | | | | |]|]; try done.
    injection Hstep as <-. cbn [state goto].
    apply effect_deferred; [done|]. intros k ci Hk _.
    left. rewrite (Hwk k ci Hk). by eexists.
Qed.



Lemma deliveredTo_others (c : nat) (w : list (nat * string)) :
  Forall (fun e => e.1 <> c) w -> deliveredTo c w = [].
Proof.
  induction w as [|[k m] w IH]; [done|]. intros [Hk Hw]%Forall_cons.
  rewrite deliveredTo_cons, decide_False by done. by apply IH.
Qed.



(** *** What every reachable state satisfies *)

Lemma run_invariant (I : Server -> Prop) (evs : list Event) (s s' : Server) :
  (forall s1 s2 e, registryInv s1 -> I s1 ->
                   step rangeClients s1 e = Some s2 -> I s2) ->
  registryInv s -> I s -> run rangeClients s evs = Some s' -> I s'.
Proof.
  intros Hstep. revert s. induction evs as [|e evs IH]; intros s Hinv HI;
    cbn [run].
  - by intros [= <-].
  - destruct (step rangeClients s e) as [s1|] eqn:E; [|done].
    apply IH; [by eapply registryInv_step | by eapply Hstep].
Qed.

Lemma reachable_invariant (I : Server -> Prop) (s : Server) :
  I (initial allowed groups0) ->
  (forall s1 s2 e, registryInv s1 -> I s1 ->
                   step rangeClients s1 e = Some s2 -> I s2) ->
  Reachable rangeClients allowed groups0 s -> I s.
Proof.
  intros H0 Hstep [evs Hrun].
  eapply run_invariant; [exact Hstep|apply registryInv_initial|exact H0|done].
Qed.

(** X2. every write the server issues to a connection ends in a newline. *)
Theorem wire_lines_terminated (s : Server) (k : nat) (m : string) :
  Reachable rangeClients allowed groups0 s ->
  m ∈ received k (state s) -> HasSuffix m NL = true.
Proof.
  intros Hs.
  assert (Forall (fun e => HasSuffix e.2 NL = true) (wire (state s))) as Hw.
  { revert Hs. apply (reachable_invariant
      (fun s => Forall (fun e => HasSuffix e.2 NL = true) (wire (state s)))).
    - by constructor.
    - intros s1 s2 e Hinv HI Hstep.
      destruct (step_effect s1 s2 e Hinv Hstep)
        as [(ts & _ & ->)|(_ & _ & _ & (w & -> & HP) & _)]; [done|].
      apply Forall_app. split; [done|].
      eapply Forall_impl; [exact HP|]. by intros ? [_ ?]. }
  intros Hin. unfold received in Hin.
  apply list_elem_of_omap in Hin as ([k' m'] & Hin & Hm).
  cbn in Hm. case_decide; [|done]. injection Hm as ->.
  by apply (proj1 (Forall_forall _ _) Hw (k', m)).
Qed.

(** X3. the allow list and the group table are never changed once the
    server runs. *)
Theorem config_read_only (s : Server) :
  Reachable rangeClients allowed groups0 s ->
  allowedUsernames (state s) = allowed /\ groups (state s) = groups0.
Proof.
  apply (reachable_invariant
    (fun s => allowedUsernames (state s) = allowed
              /\ groups (state s) = groups0)); [done|].
  intros s1 s2 e Hinv [Ha Hg] Hstep.
  destruct (step_effect s1 s2 e Hinv Hstep)
    as [(ts & _ & ->)|(Ha' & Hg' & _)]; [done|].
  by rewrite Ha', Hg'.
Qed.



Lemma step_frame (s s' : Server) (e : Event) (c : nat) :
  step rangeClients s e = Some s' -> eventConn e <> Some c ->
  clients (state s') !! c = clients (state s) !! c
  /\ pcs s' !! c = pcs s !! c.
Proof.
  intros Hstep Hc. revert Hstep.
  destruct e as [c0|c0 line|c0|c0|c0|c0|c0 message|c0|ts]; cbn [step];
    [..|by intros [= <-]];
    (assert (c0 <> c) as Hne by (cbn in Hc; congruence));
    repeat case_match; try done; intros [= <-]; cbn [state pcs goto];
    (split; [|by rewrite lookup_insert_ne]);
    rewrite ?clients_welcome, ?clients_join, ?clients_message,
      ?clients_deferred; cbn [clients set_clients
        handleConnection_register handleConnection_activate sendToClient
        set_wire];
    rewrite ?lookup_insert_ne, ?lookup_delete_ne by done; try done.
  all: match goal with
       | H : handleConnection_username _ ?cl ?l ?st = _ |- _ =>
           pose proof (clients_username rangeClients cl l st) as Hu;
           rewrite H in Hu; cbn in Hu; by rewrite Hu
       end.
Qed.

(** X5. a step of the goroutine of one connection leaves the registry
    entries of all other connections as they are, and an active entry is
    never changed, not even its username, until the deferred function of
    its own goroutine removes it. *)
Theorem registry_entry_stable (s s' : Server) (e : Event) :
  Reachable rangeClients allowed groups0 s ->
  step rangeClients s e = Some s' ->
  (forall c, eventConn e <> Some c ->
             clients (state s') !! c = clients (state s) !! c)
  /\ (forall c ci, clients (state s) !! c = Some ci -> active ci = true ->
        clients (state s') !! c = Some ci
        \/ (e = EvDeferred c /\ clients (state s') !! c = None)).
Proof.
  intros Hinv%registryInv_reachable Hstep.
  split; [intros c Hc; by apply (step_frame s s' e c)|]. intros c ci Hci Ha.
  destruct (decide (eventConn e = Some c)) as [He|He];
    [|left; by rewrite (proj1 (step_frame s s' e c Hstep He))].
  pose proof (Hinv c) as Hc. rewrite Hci in Hc.
  destruct Hc as (_ & pc & Hpc & Hentry). revert Hstep.
  destruct e as [c0|c0 line|c0|c0|c0|c0|c0 message|c0|ts]; cbn [step];
    cbn in He; simplify_eq; rewrite Hpc; try rewrite Hci.
  - done.
  - destruct pc; try done. cbn in Hentry. congruence.
  - destruct pc; try done; intros [= <-]; by left.
  - destruct pc; try done. cbn in Hentry. destruct Hentry. congruence.
  - destruct pc; try done. intros [= <-]. left. cbn [state goto].
    by rewrite clients_welcome.
  - destruct pc; try done. intros [= <-]. left. cbn [state goto].
    by rewrite clients_join.
  - destruct pc; try done. destruct (isLine message); [|done].
    intros [= <-]. left. cbn [state goto]. by rewrite clients_message.
  - destruct pc; try done. intros [= <-]. right. split; [done|].
    cbn [state goto]. by rewrite clients_deferred, lookup_delete_eq.
Qed.

End Invariants.


Section RouterExtras.
Variable rangeClients : gmap nat ClientInfo -> list (nat * ClientInfo).
Hypothesis rangeClients_perm : forall m, rangeClients m ≡ₚ map_to_list m.

(** X6. [broadcastMessage] writes the message, newline terminated, once
    to every registered active connection other than [excludeConn], to
    no other connection, and changes nothing but the wire. *)
Theorem broadcast_exactly_once (message : string) (excludeConn : option nat)
    (st : State) :
  wellKeyed st ->
  let st' := broadcastMessage rangeClients message excludeConn st in
  (forall k, received k st'
             = received k st
               ++ (if isActive st k && negb (bool_decide (Some k = excludeConn))
                   then [withNewline message] else []))
  /\ (forall k, excludeConn = Some k -> received k st' = received k st)
  /\ clients st' = clients st
  /\ chatHistory st' = chatHistory st
  /\ chatLogFileHandler st' = chatLogFileHandler st.
Proof.
  intros Hwk st'.
  assert (forall k, received k st'
             = received k st
               ++ (if isActive st k && negb (bool_decide (Some k = excludeConn))
                   then [withNewline message] else [])) as Hr.
  { intros k. subst st'. rewrite broadcastMessage_spec, !received_wire.
    rewrite wire_set_wire, deliveredTo_app.
    by rewrite (broadcast_deliveredTo rangeClients rangeClients_perm). }
  split; [exact Hr|]. split.
  - intros k ->. rewrite Hr, bool_decide_eq_true_2 by done.
    by rewrite andb_false_r, app_nil_r.
  - subst st'. by rewrite broadcastMessage_spec.
Qed.

Lemma sameLog_message (client : ClientInfo) (message : string) (st : State)
    (f : option (list string)) :
  exists f',
    handleConnection_message rangeClients client message (set_chatLog f st)
    = set_chatLog f' (handleConnection_message rangeClients client message st)
    /\ (f = None -> f' = None).
Proof.
  unfold handleConnection_message.
  destruct (HasPrefix _ "PRIVMSG ").
  { rewrite !privmsg_args.
    destruct (commandArgs _) as [[r t]|]; [|by exists f].
    change (findActive rangeClients r (set_chatLog f st))
      with (findActive rangeClients r st).
    destruct (findActive rangeClients r st) as [rcpt|]; [|by exists f].
    rewrite !addMessageToHistory_spec, !logChatMessage_spec.
    eexists. split; [reflexivity|]. by intros ->. }
  destruct (HasPrefix _ "GROUPMSG ").
  { rewrite !groupmsg_args.
    destruct (commandArgs _) as [[g t]|]; [|by exists f].
    change (groups (set_chatLog f st)) with (groups st).
    destruct (groups st !! g) as [group|]; [|by exists f].
    cbn zeta. rewrite !addMessageToHistory_spec, !logChatMessage_spec.
    eexists. split; [reflexivity|]. by intros ->. }
  rewrite !broadcastMessage_spec, !addMessageToHistory_spec,
    !logChatMessage_spec.
  eexists. split; [reflexivity|]. by intros ->.
Qed.

(** X7. logging is fail-soft.  With a nil log handle a line is routed
    exactly as with an open one: the same writes to the same connections,
    the same history, the same registry; only nothing is logged. *)
Theorem routing_without_log (client : ClientInfo) (message : string)
    (st : State) :
  let st0 := set_chatLog None st in
  let st' := handleConnection_message rangeClients client message st in
  let st0' := handleConnection_message rangeClients client message st0 in
  wire st0' = wire st'
  /\ chatHistory st0' = chatHistory st'
  /\ clients st0' = clients st'
  /\ chatLogFileHandler st0' = None.
Proof.
  intros st0 st' st0'. subst st0 st' st0'.
  destruct (sameLog_message client message st None) as (f' & -> & Hf).
  by rewrite (Hf eq_refl).
Qed.

(** *** Parsing of commands *)

Lemma cut_first_noSpace (s a b : string) :
  cut s = Some (a, b) -> noSpace a = true.
Proof.
  revert a. induction s as [|c s IH]; intros a; [done|]. cbn [cut].
  destruct (Ascii.eqb c " ") eqn:Ec; [by intros [= <- <-]|].
  destruct (cut s) as [[a' b']|]; [|done]. intros [= <- <-].
  cbn [noSpace]. rewrite Ec. cbn. by apply IH.
Qed.

Lemma cut_None (s : string) : noSpace s = true -> cut s = None.
Proof.
  induction s as [|c s IH]; [done|]. cbn [noSpace cut].
  intros [Hc Hs]%andb_true_iff. apply negb_true_iff in Hc.
  by rewrite Hc, (IH Hs).
Qed.

Lemma commandArgs_noSpace (cmd a t : string) :
  commandArgs cmd = Some (a, t) -> noSpace a = true.
Proof.
  unfold commandArgs. cbn [SplitN].
  destruct (cut cmd) as [[x r]|] eqn:E1; [|done].
  destruct (cut r) as [[y z]|] eqn:E2; [|done].
  repeat case_bool_decide; try done. cbn. intros [= <- <-].
  by eapply cut_first_noSpace.
Qed.


Lemma commandArgs_one_argument (cmd r : string) :
  noSpace cmd = true -> noSpace r = true ->
  commandArgs (cmd +:+ " " +:+ r) = None.
Proof.
  intros Hc Hr. unfold commandArgs. cbn [SplitN].
  rewrite (cut_noSpace cmd r Hc). by rewrite (cut_None r Hr).
Qed.

Lemma commandArgs_empty_argument (cmd rest : string) :
  noSpace cmd = true -> commandArgs (cmd +:+ " " +:+ " " +:+ rest) = None.
Proof.
  intros Hc. unfold commandArgs. cbn [SplitN].
  by rewrite (cut_noSpace cmd _ Hc).
Qed.

(** X8. a command with its text missing ([PRIVMSG bob], [GROUPMSG
    friends]) or with two blanks after the command word (an empty
    recipient or group) is answered with the format reminder, to the
    sender only; nothing is delivered, stored or logged. *)
Theorem incomplete_command_rejected (client : ClientInfo)
    (message : string) (st : State) :
  let cmd := TrimSpace message in
  let st' := handleConnection_message rangeClients client message st in
  let badDM :=
    onlyReply (conn client)
      "System: Invalid DM format. Use: PRIVMSG <user> <message>" st st' in
  let badGM :=
    onlyReply (conn client)
      "System: Invalid GM format. Use: GROUPMSG <group> <message>" st st' in
  (forall r, cmd = "PRIVMSG " +:+ r -> noSpace r = true -> badDM)
  /\ (forall rest, cmd = "PRIVMSG  " +:+ rest -> badDM)
  /\ (forall g, cmd = "GROUPMSG " +:+ g -> noSpace g = true -> badGM)
  /\ (forall rest, cmd = "GROUPMSG  " +:+ rest -> badGM).
Proof.
  intros cmd st' badDM badGM. subst badDM badGM st'.
  unfold handleConnection_message, onlyReply. fold cmd.
  split; [|split; [|split]].
  - intros r -> Hr. rewrite HasPrefix_append, privmsg_args.
    change ("PRIVMSG " +:+ r) with ("PRIVMSG" +:+ " " +:+ r).
    by rewrite commandArgs_one_argument.
  - intros rest ->.
    change ("PRIVMSG  " +:+ rest) with ("PRIVMSG " +:+ " " +:+ rest).
    rewrite HasPrefix_append, privmsg_args.
    change ("PRIVMSG " +:+ " " +:+ rest)
      with ("PRIVMSG" +:+ " " +:+ " " +:+ rest).
    by rewrite commandArgs_empty_argument.
  - intros g -> Hg.
    replace (HasPrefix ("GROUPMSG " +:+ g) "PRIVMSG ") with false by done.
    rewrite HasPrefix_append, groupmsg_args.
    change ("GROUPMSG " +:+ g) with ("GROUPMSG" +:+ " " +:+ g).
    by rewrite commandArgs_one_argument.
  - intros rest ->.
    replace (HasPrefix ("GROUPMSG  " +:+ rest) "PRIVMSG ") with false by done.
    change ("GROUPMSG  " +:+ rest) with ("GROUPMSG " +:+ " " +:+ rest).
    rewrite HasPrefix_append, groupmsg_args.
    change ("GROUPMSG " +:+ " " +:+ rest)
      with ("GROUPMSG" +:+ " " +:+ " " +:+ rest).
    by rewrite commandArgs_empty_argument.
Qed.


(** *** Who can be reached *)

(** X10. the recipient of a direct message is one blank-free word.  A
    session whose username contains a blank (the allow list accepts such
    names) is never written to by another session's [PRIVMSG] line. *)
Theorem dm_never_reaches_spaced_name (client : ClientInfo)
    (message : string) (st : State) (k : nat) (ci : ClientInfo) :
  wellKeyed st ->
  HasPrefix (TrimSpace message) "PRIVMSG " = true ->
  clients st !! k = Some ci -> noSpace (username ci) = false ->
  k <> conn client ->
  received k (handleConnection_message rangeClients client message st)
  = received k st.
Proof.
  intros Hwk Hp Hk Hsp Hne. unfold handleConnection_message.
  rewrite Hp, privmsg_args.
  assert (forall m, received k (sendToClient client m st) = received k st)
    as Hself.
  { intros m. rewrite !received_wire. unfold sendToClient.
    rewrite wire_set_wire, deliveredTo_app, deliveredTo_cons.
    rewrite decide_False by done. by rewrite app_nil_r. }
  destruct (commandArgs _) as [[r t]|] eqn:Hargs; [|apply Hself].
  apply commandArgs_noSpace in Hargs.
  destruct (findActive rangeClients r st) as [rcpt|] eqn:E; [|apply Hself].
  apply (findActive_Some rangeClients rangeClients_perm) in E
    as (k0 & Hk0 & _ & Hu).
  assert (conn rcpt <> k) as Hr.
  { rewrite (Hwk k0 rcpt Hk0). intros ->. simplify_eq. congruence. }
  rewrite addMessageToHistory_spec, logChatMessage_spec.
  rewrite !received_wire. unfold sendToClient.
  cbn [wire set_wire set_chatHistory set_chatLog].
  rewrite !deliveredTo_app, !deliveredTo_cons.
  rewrite !decide_False by done. by rewrite !app_nil_r.
Qed.

Lemma omap_cons_unfold {A B} (f : A -> option B) (a : A) (l : list A) :
  omap f (a :: l)
  = match f a with Some y => y :: omap f l | None => omap f l end.
Proof. done. Qed.

Lemma group_deliveredTo (x : string) (l : list string) (st : State)
    (k : nat) :
  wellKeyed st -> uniqueActive st ->
  deliveredTo k
    (omap (fun m => (fun c => (conn c, x)) <$> findActive rangeClients m st) l)
  = match clients st !! k with
    | Some ci =>
        if active ci then replicate (occurrences (username ci) l) x else []
    | None => []
    end.
Proof.
  intros Hwk Huniq. induction l as [|m l IH].
  - cbn. by repeat case_match.
  - rewrite omap_cons_unfold.
    assert (occurrences m (m :: l) = S (occurrences m l)) as Hsame.
    { unfold occurrences. by rewrite filter_cons_True. }
    assert (forall u, u <> m ->
              occurrences u (m :: l) = occurrences u l) as Hdiff.
    { intros u Hu. unfold occurrences. by rewrite filter_cons_False. }
    destruct (findActive rangeClients m st) as [c0|] eqn:E.
    + apply (findActive_Some rangeClients rangeClients_perm) in E
        as (k0 & Hk0 & Ha0 & Hu0).
      cbn [fmap option_fmap option_map]. rewrite deliveredTo_cons, IH.
      rewrite (Hwk k0 c0 Hk0).
      destruct (decide (k0 = k)) as [->|Hne].
      * rewrite Hk0, Ha0, Hu0, Hsame. done.
      * destruct (clients st !! k) as [ci|] eqn:Hk; [|done].
        destruct (active ci) eqn:Ha; [|done].
        rewrite Hdiff; [done|]. intros Hu. apply Hne.
        apply (Huniq k0 k c0 ci); congruence.
    + cbn [fmap option_fmap option_map]. rewrite IH.
      destruct (clients st !! k) as [ci|] eqn:Hk; [|done].
      destruct (active ci) eqn:Ha; [|done].
      rewrite Hdiff; [done|].
      by apply (findActive_None rangeClients rangeClients_perm m st E k ci).
Qed.

(** X11. a group message goes to the active sessions of the listed
    members only.  While active usernames are unique, a session is
    written the member line once per occurrence of its username in the
    member list (not at all when it is no member or not active), and the
    sender in addition the confirmation. *)
Theorem group_delivery (client : ClientInfo) (message g t : string)
    (group : GroupInfo) (st : State) :
  wellKeyed st -> uniqueActive st ->
  TrimSpace message = "GROUPMSG " +:+ g +:+ " " +:+ t ->
  g <> "" -> noSpace g = true -> t <> "" ->
  groups st !! g = Some group ->
  let st' := handleConnection_message rangeClients client message st in
  let gm := "(#" +:+ name group +:+ " from " +:+ username client
              +:+ "): " +:+ t +:+ NL in
  let conf := "(To #" +:+ name group +:+ "): " +:+ t +:+ NL in
  forall k,
    received k st'
    = received k st
      ++ match clients st !! k with
         | Some ci =>
             if active ci
             then replicate (occurrences (username ci) (members group)) gm
             else []
         | None => []
         end
      ++ (if decide (conn client = k) then [conf] else []).
Proof.
  intros Hwk Huniq E Hg Hsp Ht Hgrp st' gm conf k. subst st'.
  unfold handleConnection_message. rewrite E.
  replace (HasPrefix ("GROUPMSG " +:+ g +:+ " " +:+ t) "PRIVMSG ")
    with false by done.
  rewrite HasPrefix_append, groupmsg_args.
  change ("GROUPMSG " +:+ g +:+ " " +:+ t)
    with ("GROUPMSG" +:+ " " +:+ g +:+ " " +:+ t).
  rewrite commandArgs_command by done. rewrite Hgrp. cbn zeta.
  rewrite <- !append_assoc in E.
  pose proof (fun a => withNewline_arg a _ t message E Ht) as Hnl.
  assert (withNewline ("(#" +:+ name group +:+ " from " +:+ username client
                         +:+ "): " +:+ t) = gm) as ->.
  { subst gm. rewrite <- !append_assoc, Hnl. by rewrite !append_assoc. }
  rewrite addMessageToHistory_spec, logChatMessage_spec.
  unfold sendToClient.
  assert (withNewline ("(To #" +:+ name group +:+ "): " +:+ t) = conf) as ->.
  { subst conf. rewrite <- !append_assoc, Hnl. by rewrite !append_assoc. }
  rewrite !received_wire.
  cbn [wire set_wire set_chatHistory set_chatLog].
  rewrite !deliveredTo_app, deliveredTo_cons, <- app_assoc.
  rewrite (group_deliveredTo gm (members group) st k Hwk Huniq).
  do 2 f_equal. cbn. by rewrite app_nil_r.
Qed.

End RouterExtras.


Section Sessions.
Variable rangeClients : gmap nat ClientInfo -> list (nat * ClientInfo).
Hypothesis rangeClients_perm : forall m, rangeClients m ≡ₚ map_to_list m.
Variable allowed : gmap string bool.
Variable groups0 : gmap string GroupInfo.

Lemma username_accepts (client : ClientInfo) (line u : string) (st : State) :
  TrimSpace line = u -> u <> "" -> String.length u < USERNAME_MAX_LEN ->
  is_Some (allowedUsernames st !! u) ->
  ~ usernameInUse (conn client) u st ->
  handleConnection_username rangeClients client line st = (st, Some u).
Proof.
  intros Hu Hne Hlen [b Hal] Hfree. unfold handleConnection_username.
  rewrite Hu. rewrite bool_decide_eq_false_2 by done.
  rewrite bool_decide_eq_false_2 by lia.
  unfold isUsernameAllowed. rewrite Hal. cbn [negb].
  destruct (alreadyExists rangeClients (conn client) u st) eqn:E; [|done].
  destruct Hfree. by apply (alreadyExists_true rangeClients rangeClients_perm).
Qed.

(** X12. when the one active session of a username has left, the name is
    free again: no session holds it, and a handshake that sends it is no
    longer turned away as in use. *)
Theorem username_reusable (st : State) (c : nat) (ci client' : ClientInfo)
    (line : string) :
  wellKeyed st -> uniqueActive st ->
  clients st !! c = Some ci -> active ci = true ->
  let u := username ci in
  let st' := handleConnection_deferred rangeClients c st in
  (forall c', ~ usernameInUse c' u st')
  /\ (TrimSpace line = u -> u <> "" -> String.length u < USERNAME_MAX_LEN ->
      is_Some (allowedUsernames st !! u) ->
      handleConnection_username rangeClients client' line st'
      = (st', Some u)).
Proof.
  intros Hwk Huniq Hc Ha u st'.
  assert (forall c', ~ usernameInUse c' u st') as Hfree.
  { intros c' (k & ci' & Hk & Ha' & Hu' & _). subst st'.
    rewrite clients_deferred in Hk.
    apply lookup_delete_Some in Hk as [Hne Hk].
    apply Hne. by apply (Huniq c k ci ci'). }
  split; [exact Hfree|]. intros Hu Hne Hlen Hal.
  apply username_accepts; try done.
  subst st'.
  destruct (effect_deferred rangeClients rangeClients_perm (fun _ => True)
              c st ltac:(done)) as (-> & _). done.
Qed.

Lemma welcome_wire (client : ClientInfo) (u : string) (st : State) :
  handleConnection_welcome client u st
  = set_wire
      (wire st
       ++ map (fun line => (conn client, line))
            (("Welcome, " +:+ u +:+ "!" +:+ NL)
             :: replayLines (chatHistory st)))
      st.
Proof.
  unfold handleConnection_welcome.
  assert (withNewline ("Welcome, " +:+ u +:+ "!")
          = "Welcome, " +:+ u +:+ "!" +:+ NL) as Hw.
  { rewrite <- !append_assoc.
    rewrite (withNewline_sentence ("Welcome, " +:+ u) "!");
      [|done|by vm_compute].
    by rewrite !append_assoc. }
  cbn zeta. rewrite !chatHistory_sendToClient.
  case_decide as Hlen.
  - destruct (chatHistory st) as [|h hs] eqn:Eh; [cbn in Hlen; lia|].
    rewrite replay_loop. unfold sendToClient.
    rewrite !set_wire_set_wire, !wire_set_wire, Hw.
    rewrite <- !app_assoc. do 2 f_equal.
    unfold replayLines. cbn [map app]. rewrite map_app, map_map. cbn [map].
    replace (withNewline "--- Recent Chat History ---")
      with ("--- Recent Chat History ---" +:+ NL) by (by vm_compute).
    replace (withNewline "--- End of History ---")
      with ("--- End of History ---" +:+ NL) by (by vm_compute).
    done.
  - destruct (chatHistory st) as [|h hs] eqn:Eh; [|cbn in Hlen; lia].
    unfold sendToClient. by rewrite Hw.
Qed.

Lemma deliveredTo_self (c : nat) (l : list string) :
  deliveredTo c (map (fun line => (c, line)) l) = l.
Proof.
  induction l as [|x l IH]; [done|].
  cbn [map]. rewrite deliveredTo_cons, decide_True by done.
  cbn. by rewrite IH.
Qed.

Lemma deliveredTo_other (c k : nat) (l : list string) :
  k <> c -> deliveredTo k (map (fun line => (c, line)) l) = [].
Proof.
  intros Hne. apply deliveredTo_others, Forall_fmap, Forall_forall.
  intros x _. cbn. congruence.
Qed.

(** X13. a complete login.  A fresh connection whose first line carries a
    username that is non-empty, shorter than 50 bytes, on the allow list
    and not held by an active session runs through accept, check,
    activation, welcome and join notice.  It ends in the message loop,
    registered as active under that username; it has been written
    [REQ_USERNAME], [Welcome, <username>!] and the history replay, and
    not its own join notice, which every other active session has got
    and which is now the newest line of the history. *)
Theorem login_succeeds (s : Server) (c : nat) (line : string) :
  Reachable rangeClients allowed groups0 s ->
  pcs s !! c = None ->
  isLine line = true ->
  let u := TrimSpace line in
  let st := state s in
  let joinMsg := "System: " +:+ u +:+ " has joined the chat." +:+ NL in
  u <> "" -> String.length u < USERNAME_MAX_LEN ->
  is_Some (allowedUsernames st !! u) ->
  ~ usernameInUse c u st ->
  exists s',
    run rangeClients s
      [EvAccept c; EvUsernameLine c line; EvActivate c; EvWelcome c; EvJoin c]
    = Some s'
    /\ pcs s' !! c = Some InLoop
    /\ clients (state s')
       = <[c := {| conn := c; username := u; active := true |}]> (clients st)
    /\ received c (state s')
       = received c st
         ++ ["REQ_USERNAME" +:+ NL; "Welcome, " +:+ u +:+ "!" +:+ NL]
         ++ replayLines (chatHistory st)
    /\ (forall k, k <> c ->
          received k (state s')
          = received k st ++ (if isActive st k then [joinMsg] else []))
    /\ chatHistory (state s')
       = lastN MAX_HISTORY_LINES (chatHistory st ++ [joinMsg]).
Proof.
  intros Hreach Hpc Hline u st joinMsg Hne Hlen Hal Hfree.
  pose proof (reachable_wellKeyed _ _ _ _ Hreach) as Hwk.
  set (client0 := {| conn := c; username := ""; active := false |}).
  set (client1 := {| conn := c; username := u; active := true |}).
  set (st1 := handleConnection_register c st).
  set (s1 := goto c AwaitingUsername st1 s).
  assert (step rangeClients s (EvAccept c) = Some s1) as E1.
  { cbn [step]. by rewrite Hpc. }
  assert (clients st1 = <[c := client0]> (clients st)) as Hcl1 by done.
  assert (handleConnection_username rangeClients client0 line st1
          = (st1, Some u)) as Hcheck.
  { apply username_accepts; try done.
    intros (k & ci & Hk & Ha & Hu & Hc). apply Hfree.
    rewrite Hcl1 in Hk. apply lookup_insert_Some in Hk as [[<- <-]|[Hkc Hk]];
      [done|]. by exists k, ci. }
  set (s2 := goto c (Checked u) st1 s1).
  assert (step rangeClients s1 (EvUsernameLine c line) = Some s2) as E2.
  { cbn [step]. subst s1. cbn [pcs state goto].
    rewrite lookup_insert_eq, Hcl1, lookup_insert_eq, Hline.
    by rewrite Hcheck. }
  set (st3 := handleConnection_activate c u st1).
  set (s3 := goto c (Activated u) st3 s2).
  assert (step rangeClients s2 (EvActivate c) = Some s3) as E3.
  { cbn [step]. subst s2. cbn [pcs state goto]. by rewrite lookup_insert_eq. }
  assert (clients st3 = <[c := client1]> (clients st)) as Hcl3.
  { subst st3. unfold handleConnection_activate. cbn [clients set_clients].
    rewrite Hcl1. by rewrite insert_insert_eq. }
  set (st4 := handleConnection_welcome client1 u st3).
  set (s4 := goto c (Welcomed u) st4 s3).
  assert (step rangeClients s3 (EvWelcome c) = Some s4) as E4.
  { cbn [step]. subst s3. cbn [pcs state goto].
    by rewrite lookup_insert_eq, Hcl3, lookup_insert_eq. }
  set (st5 := handleConnection_join rangeClients c u st4).
  set (s5 := goto c InLoop st5 s4).
  assert (step rangeClients s4 (EvJoin c) = Some s5) as E5.
  { cbn [step]. subst s4. cbn [pcs state goto]. by rewrite lookup_insert_eq. }
  exists s5. split.
  { cbn [run]. by rewrite E1, E2, E3, E4, E5. }
  split; [subst s5; cbn [pcs goto]; by rewrite lookup_insert_eq|].
  assert (clients st4 = <[c := client1]> (clients st)) as Hcl4.
  { subst st4. by rewrite clients_welcome. }
  assert (wellKeyed st4) as Hwk4.
  { intros k ci. rewrite Hcl4.
    intros [[<- <-]|[_ Hk]]%lookup_insert_Some; [done|by apply Hwk]. }
  assert (wire st4
          = wire st
            ++ map (fun l => (c, l))
                 (["REQ_USERNAME" +:+ NL; "Welcome, " +:+ u +:+ "!" +:+ NL]
                  ++ replayLines (chatHistory st))) as Hw4.
  { subst st4. rewrite welcome_wire, wire_set_wire.
    assert (wire st3 = wire st ++ [(c, "REQ_USERNAME" +:+ NL)]) as -> by done.
    assert (chatHistory st3 = chatHistory st) as -> by done.
    by rewrite <- app_assoc. }
  assert (forall k,
            received k st5
            = received k st4
              ++ (if isActive st4 k && negb (bool_decide (Some k = Some c))
                  then [joinMsg] else [])) as Hr5.
  { intros k. subst st5. unfold handleConnection_join.
    set (st' := addMessageToHistory _ (logChatMessage _ st4)).
    assert (clients st' = clients st4 /\ wire st' = wire st4) as [Hc' Hw'].
    { subst st'. by rewrite addMessageToHistory_spec, logChatMessage_spec. }
    rewrite (received_broadcast rangeClients rangeClients_perm)
      by (unfold wellKeyed; by rewrite Hc').
    unfold isActive. rewrite Hc', !received_wire, Hw'. do 3 f_equal.
    subst joinMsg. rewrite <- !append_assoc.
    rewrite (withNewline_sentence ("System: " +:+ u) " has joined the chat.");
      [|done|by vm_compute].
    by rewrite !append_assoc. }
  split; [|split; [|split]].
  - subst s5. cbn [state goto]. subst st5. by rewrite clients_join.
  - subst s5. cbn [state goto]. rewrite Hr5.
    rewrite bool_decide_eq_true_2 by done.
    rewrite andb_false_r, app_nil_r.
    rewrite !received_wire, Hw4, deliveredTo_app. by rewrite deliveredTo_self.
  - intros k Hk. subst s5. cbn [state goto]. rewrite Hr5.
    rewrite bool_decide_eq_false_2 by congruence. rewrite andb_true_r.
    rewrite !received_wire, Hw4, deliveredTo_app.
    rewrite deliveredTo_other, app_nil_r by done.
    unfold isActive. rewrite Hcl4, lookup_insert_ne by done. done.
  - subst s5. cbn [state goto]. subst st5. unfold handleConnection_join.
    rewrite broadcastMessage_spec, addMessageToHistory_spec,
      logChatMessage_spec.
    cbn [chatHistory set_wire set_chatHistory set_chatLog].
    assert (chatHistory st4 = chatHistory st) as ->.
    { subst st4. by rewrite welcome_wire. }
    do 3 f_equal. subst joinMsg. rewrite <- !append_assoc.
    rewrite (withNewline_sentence ("System: " +:+ u) " has joined the chat.");
      [|done|by vm_compute].
    by rewrite !append_assoc.
Qed.

End Sessions.


Section TrimFacts.

Lemma prefix_take (e l : string) (k : nat) :
  String.prefix e (String.substring 0 k l) = true -> String.prefix e l = true.
Proof.
  revert l k. induction e as [|a e IH]; intros l k; [by destruct l|].
  destruct k as [|k], l as [|c l]; cbn; try done.
  destruct (ascii_dec a c); [|done]. apply IH.
Qed.



Lemma leadingSpace_None (s : string) :
  leadingSpace s = None <->
  forall e, In e spaceRunes -> HasPrefix s e = false.
Proof.
  unfold leadingSpace. split.
  - destruct (List.find _ _) eqn:E; [done|]. intros _ e He.
    by apply (find_none _ _ E).
  - intros H. destruct (List.find _ _) as [e|] eqn:E; [|done].
    apply find_some in E as [Hin He]. by rewrite (H e Hin) in He.
Qed.

Lemma leadingSpace_take (k : nat) (l : string) :
  leadingSpace l = None -> leadingSpace (takeBytes k l) = None.
Proof.
  rewrite !leadingSpace_None. intros H e He.
  destruct (HasPrefix (takeBytes k l) e) eqn:E; [|done].
  apply prefix_take in E. unfold HasPrefix in H. by rewrite (H e He) in E.
Qed.

Lemma trimRight_keeps_leading (fuel : nat) (l : string) :
  leadingSpace l = None -> leadingSpace (trimRight fuel l) = None.
Proof.
  revert l. induction fuel as [|fuel IH]; intros l Hl; [done|].
  cbn [trimRight]. destruct (trailingSpace l); [|done].
  by apply IH, leadingSpace_take.
Qed.

(** What [TrimSpace] returns has no white space at either end. *)
Lemma TrimSpace_trimmed (s : string) : trimmed (TrimSpace s).
Proof.
  unfold TrimSpace. split.
  - apply trimRight_keeps_leading, trimLeft_done. done.
  - apply trimRight_done. done.
Qed.






End TrimFacts.

Section ConfigFacts.

Lemma load_users_lookup (lines : list string) (m0 : gmap string bool)
    (u : string) :
  is_Some (foldl loadAllowedUsers_line m0 lines !! u)
  <-> is_Some (m0 !! u)
      \/ (wellFormedName u
          /\ exists line, line ∈ lines /\ TrimSpace line = u).
Proof.
  revert m0. induction lines as [|a lines IH]; intros m0; cbn [foldl].
  - split; [by left|]. intros [?|(_ & l & Hin & _)]; [done|].
    by apply not_elem_of_nil in Hin.
  - rewrite IH. unfold loadAllowedUsers_line, wellFormedName.
    case_bool_decide as E1; [|case_bool_decide as E2].
    + split; (intros [?|(Hwf & l & Hin & Hl)]; [by left|right]).
      * split; [done|]. exists l. split; [by right|done].
      * split; [done|]. exists l. split; [|done].
        apply elem_of_cons in Hin as [->|?]; [|done].
        destruct Hwf. congruence.
    + split; (intros [?|(Hwf & l & Hin & Hl)]; [by left|right]).
      * split; [done|]. exists l. split; [by right|done].
      * split; [done|]. exists l. split; [|done].
        apply elem_of_cons in Hin as [->|?]; [|done].
        destruct Hwf. subst u. lia.
    + rewrite lookup_insert_is_Some. split.
      * intros [[Hu|[Hu ?]]|(Hwf & l & Hin & Hl)].
        -- right. subst u. split; [split; [done|lia]|].
           exists a. split; [by left|done].
        -- by left.
        -- right. split; [done|]. exists l. split; [by right|done].
      * intros [?|(Hwf & l & Hin & Hl)].
        -- destruct (decide (TrimSpace a = u)); [by left; left|].
           left. by right.
        -- apply elem_of_cons in Hin as [->|?]; [by left; left|].
           right. split; [done|]. by exists l.
Qed.


Lemma members_good (memberStr : string) :
  Forall (fun m => wellFormedName m /\ trimmed m)
    (loadGroups_members memberStr).
Proof.
  unfold loadGroups_members.
  assert (forall l acc,
    Forall (fun m => wellFormedName m /\ trimmed m) acc ->
    Forall (fun m => wellFormedName m /\ trimmed m)
      (foldl (fun members0 memberName =>
                let m := TrimSpace memberName in
                if bool_decide (m = "") then members0
                else if bool_decide (USERNAME_MAX_LEN <= String.length m)
                     then members0
                     else members0 ++ [m]) acc l)) as H.
  { induction l as [|x l IH]; intros acc Hacc; [done|]. cbn [foldl].
    apply IH. cbn zeta. repeat case_bool_decide; try done.
    apply Forall_app. split; [done|]. apply Forall_singleton.
    split; [split; [done|lia] | apply TrimSpace_trimmed]. }
  apply H. by constructor.
Qed.

(** X15. every group [loadGroups] stores is well formed: it is stored
    under its own name, which is trimmed, not empty and shorter than 50
    bytes; it has at least one member; and each member is a trimmed,
    non-empty name shorter than 50 bytes. *)
Theorem groups_file_loaded (lines : list string) (st : State) (n : string)
    (g : GroupInfo) :
  groups (loadGroups (Some lines) st) !! n = Some g ->
  name g = n
  /\ n <> "" /\ String.length n < GROUPNAME_MAX_LEN /\ trimmed n
  /\ members g <> []
  /\ Forall (fun m => wellFormedName m /\ trimmed m) (members g).
Proof.
  unfold loadGroups. cbn [groups set_groups].
  set (P := fun (n : string) (g : GroupInfo) =>
    name g = n
    /\ n <> "" /\ String.length n < GROUPNAME_MAX_LEN /\ trimmed n
    /\ members g <> []
    /\ Forall (fun m => wellFormedName m /\ trimmed m) (members g)).
  assert (forall l m0, map_Forall P m0 ->
                       map_Forall P (foldl loadGroups_line m0 l)) as H.
  { induction l as [|x l IH]; intros m0 Hm0; [done|]. cbn [foldl].
    apply IH. unfold loadGroups_line. cbn zeta.
    repeat case_match; try done.
    apply map_Forall_insert_2; [|done].
    repeat match goal with
           | H : bool_decide _ = _ |- _ =>
               first [apply bool_decide_eq_false in H
                     |apply bool_decide_eq_true in H]
           | H : _ || _ = false |- _ => apply orb_false_iff in H as [? ?]
           end.
    unfold P. cbn [name members].
    split; [done|]. split; [done|]. split; [lia|].
    split; [apply TrimSpace_trimmed|].
    split; [|apply members_good].
    intros Hnil. rewrite Hnil in *. cbn in *. lia. }
  intros Hn. apply (H lines ∅); [apply map_Forall_empty|done].
Qed.

Lemma allowed_loadGroups (file : option (list string)) (st : State) :
  allowedUsernames (loadGroups file st) = allowedUsernames st.
Proof. by destruct file. Qed.

End ConfigFacts.

Section Admission.
Variable rangeClients : gmap nat ClientInfo -> list (nat * ClientInfo).
Hypothesis rangeClients_perm : forall m, rangeClients m ≡ₚ map_to_list m.
Variable allowed : gmap string bool.
Variable groups0 : gmap string GroupInfo.

Lemma username_pass_good (client : ClientInfo) (line u : string)
    (st st' : State) :
  handleConnection_username rangeClients client line st = (st', Some u) ->
  goodName (allowedUsernames st) u.
Proof.
  unfold handleConnection_username, isUsernameAllowed.
  case_bool_decide as E1; [done|]. case_bool_decide as E2; [done|].
  destruct (allowedUsernames st !! TrimSpace line) as [b|] eqn:Hal; [|done].
  cbn [negb]. case_match; [done|]. intros [= <- <-].
  split; [by rewrite Hal|]. split; [split; [done|lia]|].
  apply TrimSpace_trimmed.
Qed.

Lemma namesInv_step (s s' : Server) (e : Event) :
  allowedUsernames (state s) = allowed ->
  namesInv allowed s -> step rangeClients s e = Some s' ->
  namesInv allowed s'.
Proof.
  intros Hal [Hchk Hact] Hstep. split.
  - intros c u Hpc'.
    destruct (decide (eventConn e = Some c)) as [He|He].
    2:{ apply (Hchk c).
        by rewrite <- (proj2 (step_frame rangeClients s s' e c Hstep He)). }
    revert Hstep Hpc'.
    destruct e as [c0|c0 line|c0|c0|c0|c0|c0 message|c0|ts]; cbn [step];
      cbn in He; try discriminate He; injection He as ->;
      repeat case_match; try done;
      intros [= <-]; cbn [pcs goto]; rewrite lookup_insert_eq; try done.
    intros [= <-]. rewrite <- Hal. by eapply username_pass_good.
  - intros c ci Hci' Ha.
    destruct (decide (eventConn e = Some c)) as [He|He].
    2:{ apply (Hact c); [|done].
        by rewrite <- (proj1 (step_frame rangeClients s s' e c Hstep He)). }
    revert Hstep Hci'.
    destruct e as [c0|c0 line|c0|c0|c0|c0|c0 message|c0|ts]; cbn [step];
      cbn in He; try discriminate He; injection He as ->.
    + case_match; [done|]. intros [= <-]. cbn [state goto].
      unfold handleConnection_register. cbn. rewrite lookup_insert_eq.
      intros [= <-]. done.
    + repeat case_match; try done; intros [= <-]; cbn [state goto];
        match goal with
        | H : handleConnection_username _ ?cl ?l ?st = _ |- _ =>
            pose proof (clients_username rangeClients cl l st) as Hu;
            rewrite H in Hu; cbn in Hu; rewrite Hu
        end; intros Hci; by apply (Hact c).
    + repeat case_match; try done; intros [= <-]; cbn [state goto];
        intros Hci; by apply (Hact c).
    + destruct (pcs s !! c) as [[|u| | | | |]|] eqn:Hpc; try done.
      intros [= <-]. cbn [state goto]. unfold handleConnection_activate.
      cbn. rewrite lookup_insert_eq. intros [= <-]. cbn. by apply (Hchk c).
    + repeat case_match; try done; intros [= <-]; cbn [state goto].
      rewrite clients_welcome. intros Hci; by apply (Hact c).
    + repeat case_match; try done; intros [= <-]; cbn [state goto].
      rewrite clients_join. intros Hci; by apply (Hact c).
    + repeat case_match; try done; intros [= <-]; cbn [state goto].
      rewrite clients_message. intros Hci; by apply (Hact c).
    + repeat case_match; try done; intros [= <-]; cbn [state goto].
      by rewrite clients_deferred, lookup_delete_eq.
Qed.

Lemma reachable_names (s : Server) :
  Reachable rangeClients allowed groups0 s ->
  allowedUsernames (state s) = allowed /\ namesInv allowed s.
Proof.
  apply (reachable_invariant rangeClients allowed groups0
           (fun s => allowedUsernames (state s) = allowed
                     /\ namesInv allowed s)).
  - split; [done|]. split.
    + intros c u. cbn. by rewrite lookup_empty.
    + intros c ci. cbn. by rewrite lookup_empty.
  - intros s1 s2 e Hinv [Hal Hn] Hstep. split.
    + destruct (step_effect rangeClients rangeClients_perm s1 s2 e Hinv Hstep)
        as [(ts & _ & ->)|(Ha' & _)]; [done|]. by rewrite Ha'.
    + by eapply namesInv_step.
Qed.

(** X16. only allow-listed names are ever active.  In every reachable
    state the username of an active session is on the allow list, not
    empty, shorter than 50 bytes and free of surrounding white space. *)
Theorem active_names_allowed (s : Server) (c : nat) (ci : ClientInfo) :
  Reachable rangeClients allowed groups0 s ->
  clients (state s) !! c = Some ci -> active ci = true ->
  is_Some (allowed !! username ci)
  /\ username ci <> ""
  /\ String.length (username ci) < USERNAME_MAX_LEN
  /\ trimmed (username ci).
Proof.
  intros [_ [_ Hact]]%reachable_names Hci Ha.
  destruct (Hact c ci Hci Ha) as (? & [? ?] & ?). done.
Qed.

End Admission.

Section StartUp.
Variable rangeClients : gmap nat ClientInfo -> list (nat * ClientInfo).
Hypothesis rangeClients_perm : forall m, rangeClients m ≡ₚ map_to_list m.

(** X17. from start-up to an active session.  When the server has started
    from [users.txt], the username of every active session is the
    trimmed form of a line of that file; when the file could not be
    opened no session is ever active. *)
Theorem only_listed_users_active (usersFile groupsFile : option (list string))
    (evs : list Event) (s : Server) (c : nat) (ci : ClientInfo) :
  run rangeClients (Start usersFile groupsFile) evs = Some s ->
  clients (state s) !! c = Some ci -> active ci = true ->
  exists lines line,
    usersFile = Some lines /\ line ∈ lines /\ TrimSpace line = username ci.
Proof.
  intros Hrun Hci Ha.
  assert (Reachable rangeClients
            (allowedUsernames
               (loadGroups groupsFile (loadAllowedUsers usersFile zeroState)))
            (groups
               (loadGroups groupsFile (loadAllowedUsers usersFile zeroState)))
            s) as Hreach by (by exists evs).
  apply (reachable_names rangeClients rangeClients_perm) in Hreach
    as [_ [_ Hact]].
  destruct (Hact c ci Hci Ha) as (Hal & _). revert Hal.
  rewrite allowed_loadGroups. destruct usersFile as [lines|].
  - cbn [loadAllowedUsers allowedUsernames set_allowedUsernames].
    intros [Hal|(_ & line & ? & ?)]%load_users_lookup.
    + rewrite lookup_empty in Hal. by destruct Hal.
    + by exists lines, line.
  - cbn. rewrite lookup_empty. by intros [? ?].
Qed.


End StartUp.


Section WebFacts.
Variable rangeClients : gmap nat ClientInfo -> list (nat * ClientInfo).
Hypothesis rangeClients_perm : forall m, rangeClients m ≡ₚ map_to_list m.
Variable rangeWsClients : gmap nat ClientInfo -> list (nat * ClientInfo).
Hypothesis rangeWsClients_perm :
  forall m, rangeWsClients m ≡ₚ map_to_list m.

Lemma wsBroadcast_loop (msg : string) (excludeConn : option nat)
    (l : list (nat * ClientInfo)) (ws : WsState) :
  foldl (fun ws e =>
           if isTarget excludeConn e
           then set_wsWire (wsWire ws ++ [(e.1, msg)]) ws
           else ws) ws l
  = set_wsWire
      (wsWire ws
       ++ map (fun e => (e.1, msg)) (filter (fun e => isTarget excludeConn e) l))
      ws.
Proof.
  revert ws. induction l as [|e l IH]; intros ws; cbn [foldl].
  - rewrite filter_nil. cbn. rewrite app_nil_r. by destruct ws.
  - rewrite IH. destruct (isTarget excludeConn e) eqn:E.
    + rewrite filter_cons_True by (by apply Is_true_true_2).
      cbn. by rewrite <- app_assoc.
    + by rewrite filter_cons_False by (by apply Is_true_false_2).
Qed.

Lemma broadcastWebSocketMessage_spec (message : string)
    (excludeConn : option nat) (ws : WsState) :
  broadcastWebSocketMessage rangeWsClients message excludeConn ws
  = set_wsWire
      (wsWire ws
       ++ map (fun e => (e.1, withNewline message))
            (filter (fun e => isTarget excludeConn e)
               (rangeWsClients (wsClients ws))))
      ws.
Proof. unfold broadcastWebSocketMessage. apply wsBroadcast_loop. Qed.

Lemma rangeWsClients_empty : rangeWsClients ∅ = [].
Proof.
  apply Permutation_nil_r. rewrite rangeWsClients_perm.
  by rewrite map_to_list_empty.
Qed.

Lemma broadcastWebSocketMessage_nobody (message : string)
    (excludeConn : option nat) (ws : WsState) :
  wsClients ws = ∅ ->
  broadcastWebSocketMessage rangeWsClients message excludeConn ws = ws.
Proof.
  intros He. rewrite broadcastWebSocketMessage_spec, He, rangeWsClients_empty.
  rewrite filter_nil. cbn. rewrite app_nil_r. destruct ws. cbn in *.
  by subst.
Qed.

Lemma wsReplay_loop (c : nat) (l : list string) (ws : WsState) :
  foldl (fun ws histMsg => sendToWsClient c histMsg ws) ws l
  = set_wsWire (wsWire ws ++ map (fun h => (c, withNewline h)) l) ws.
Proof.
  revert ws. induction l as [|h l IH]; intros ws; cbn [foldl].
  - cbn. rewrite app_nil_r. by destruct ws.
  - rewrite IH. unfold sendToWsClient. cbn. by rewrite <- app_assoc.
Qed.

Lemma ownFrames_none (c : nat) (ws ws' : WsState) :
  wsWire ws' = wsWire ws -> ownFrames c ws ws'.
Proof. intros H. exists []. cbn. by rewrite app_nil_r. Qed.

Lemma ownFrames_send (c : nat) (msg : string) (ws : WsState) :
  ownFrames c ws (sendToWsClient c msg ws).
Proof. by exists [withNewline msg]. Qed.

Lemma wsFrameInv_refl (ws : WsState) : wsFrameInv ws ws.
Proof. done. Qed.

Lemma wsFrameInv_wsWire (w : list (nat * string)) (ws : WsState) :
  wsFrameInv ws (set_wsWire w ws).
Proof. done. Qed.

Lemma wsFrameInv_trans (a b c : WsState) :
  wsFrameInv a b -> wsFrameInv b c -> wsFrameInv a c.
Proof.
  intros (? & ? & ? & ? & ?) (? & ? & ? & ? & ?).
  repeat split; congruence.
Qed.

Lemma wsFrameInv_stored (m : string) (ws : WsState) :
  wsFrameInv ws
    (set_shared (addMessageToHistory m
                   (shared (set_shared (logChatMessage m (shared ws)) ws)))
       (set_shared (logChatMessage m (shared ws)) ws)).
Proof.
  cbn [shared set_shared].
  rewrite addMessageToHistory_spec, logChatMessage_spec. done.
Qed.

Lemma username_frame (c : nat) (p : string) (ws : WsState) :
  wsFrameInv ws (handleWebSocketConnection_username rangeClients c p ws).1
  /\ ownFrames c ws (handleWebSocketConnection_username rangeClients c p ws).1.
Proof.
  unfold handleWebSocketConnection_username.
  repeat case_match; cbn [fst];
    first [by split; [done|apply ownFrames_send]
          |by split; [done|by apply ownFrames_none]].
Qed.

Lemma welcome_spec (c : nat) (u : string) (ws : WsState) :
  handleWebSocketConnection_welcome c u ws
  = set_wsWire
      (wsWire ws
       ++ map (fun m => (c, m))
            (withNewline ("Welcome, " +:+ u +:+ "!")
             :: match chatHistory (shared ws) with
                | [] => []
                | _ :: _ =>
                    withNewline "--- Recent Chat History ---"
                    :: map withNewline (chatHistory (shared ws))
                    ++ [withNewline "--- End of History ---"]
                end))
      ws.
Proof.
  unfold handleWebSocketConnection_welcome. cbn zeta.
  change (chatHistory (shared (sendToWsClient c ("Welcome, " +:+ u +:+ "!") ws)))
    with (chatHistory (shared ws)).
  destruct (chatHistory (shared ws)) as [|h0 hs] eqn:Hh.
  - done.
  - rewrite decide_True by (cbn; lia).
    change (chatHistory (shared (sendToWsClient c "--- Recent Chat History ---"
              (sendToWsClient c ("Welcome, " +:+ u +:+ "!") ws))))
      with (chatHistory (shared ws)).
    rewrite Hh, wsReplay_loop. unfold sendToWsClient, set_wsWire. cbn.
    f_equal. rewrite <- !app_assoc. cbn. f_equal. f_equal. f_equal. f_equal.
    rewrite map_app, map_map. cbn. done.
Qed.

Lemma segment_frames (c : nat) (ws : WsState) :
  (forall u, wsFrameInv ws (handleWebSocketConnection_welcome c u ws))
  /\ (forall u, wsFrameInv ws
                  (handleWebSocketConnection_join rangeWsClients c u ws))
  /\ (forall u m, wsFrameInv ws
                    (handleWebSocketConnection_message rangeWsClients c u m ws))
  /\ (forall cl, wsFrameInv ws
                   (handleWebSocketConnection_deferred rangeWsClients c cl ws)).
Proof.
  split; [|split; [|split]].
  - intros u. by rewrite welcome_spec.
  - intros u. unfold handleWebSocketConnection_join. cbn zeta.
    rewrite broadcastWebSocketMessage_spec.
    eapply wsFrameInv_trans; [apply wsFrameInv_stored|done].
  - intros u m. unfold handleWebSocketConnection_message. cbn zeta.
    repeat case_match; try done.
    rewrite broadcastWebSocketMessage_spec.
    eapply wsFrameInv_trans; [apply wsFrameInv_stored|done].
  - intros cl. unfold handleWebSocketConnection_deferred. cbn zeta.
    case_match; [|done].
    rewrite broadcastWebSocketMessage_spec.
    eapply wsFrameInv_trans; [apply wsFrameInv_stored|done].
Qed.

Lemma segment_ownFrames (c : nat) (ws : WsState) :
  wsClients ws = ∅ ->
  (forall u, ownFrames c ws (handleWebSocketConnection_welcome c u ws))
  /\ (forall u, ownFrames c ws
                  (handleWebSocketConnection_join rangeWsClients c u ws))
  /\ (forall u m, ownFrames c ws
                    (handleWebSocketConnection_message rangeWsClients c u m ws))
  /\ (forall cl, ownFrames c ws
                   (handleWebSocketConnection_deferred rangeWsClients c cl ws)).
Proof.
  intros He. split; [|split; [|split]].
  - intros u. rewrite welcome_spec. by eexists.
  - intros u. unfold handleWebSocketConnection_join. cbn zeta.
    rewrite broadcastWebSocketMessage_nobody by done. by apply ownFrames_none.
  - intros u m. unfold handleWebSocketConnection_message. cbn zeta.
    repeat case_match; try apply ownFrames_send.
    rewrite broadcastWebSocketMessage_nobody by done. by apply ownFrames_none.
  - intros cl. unfold handleWebSocketConnection_deferred. cbn zeta.
    case_match; [|by apply ownFrames_none].
    rewrite broadcastWebSocketMessage_nobody by done. by apply ownFrames_none.
Qed.

Lemma wsStep_frame (s s' : WsServer) (e : WsEvent) :
  wsStep rangeClients rangeWsClients s e = Some s' ->
  wsFrameInv (wsState s) (wsState s').
Proof.
  destruct (segment_frames (wsEventConn e) (wsState s))
    as (Hw & Hj & Hm & Hd).
  destruct e as [c written|c msg|c|c|c|c msg|c]; cbn [wsStep];
    cbn [wsEventConn] in *.
  - case_match; [done|]. by intros [= <-].
  - pose proof (username_frame c) as Hu.
    repeat case_match; try done; intros [= <-]; cbn [wsState wsGoto];
      try done;
      match goal with
      | H : handleWebSocketConnection_username _ _ ?p _ = _ |- _ =>
          specialize (Hu p (wsState s)); rewrite H in Hu; apply Hu
      end.
  - repeat case_match; try done; by intros [= <-].
  - repeat case_match; try done; intros [= <-]; apply Hw.
  - repeat case_match; try done; intros [= <-]; apply Hj.
  - repeat case_match; try done; intros [= <-]; try done; apply Hm.
  - repeat case_match; try done; intros [= <-]; apply Hd.
Qed.

Lemma wsStep_ownFrames (s s' : WsServer) (e : WsEvent) :
  wsClients (wsState s) = ∅ ->
  wsStep rangeClients rangeWsClients s e = Some s' ->
  ownFrames (wsEventConn e) (wsState s) (wsState s').
Proof.
  intros He.
  destruct (segment_ownFrames (wsEventConn e) (wsState s) He)
    as (Hw & Hj & Hm & Hd).
  destruct e as [c written|c msg|c|c|c|c msg|c]; cbn [wsStep];
    cbn [wsEventConn] in *.
  - case_match; [done|]. intros [= <-]. apply ownFrames_send.
  - pose proof (username_frame c) as Hu.
    repeat case_match; try done; intros [= <-]; cbn [wsState wsGoto];
      try (by apply ownFrames_none);
      match goal with
      | H : handleWebSocketConnection_username _ _ ?p _ = _ |- _ =>
          specialize (Hu p (wsState s)); rewrite H in Hu; apply Hu
      end.
  - repeat case_match; try done; intros [= <-]; by apply ownFrames_none.
  - repeat case_match; try done; intros [= <-]; apply Hw.
  - repeat case_match; try done; intros [= <-]; apply Hj.
  - repeat case_match; try done; intros [= <-];
      first [(by apply ownFrames_none)|apply Hm].
  - repeat case_match; try done; intros [= <-]; apply Hd.
Qed.

(** X19. web sessions never touch the TCP side.  Whatever the web
    sessions do, the registry [clients] and everything written to the
    TCP connections stay as they were, as do the configuration and the
    map [wsClients]: a web session is in no registry, and nothing it
    sends is written to a TCP client. *)
Theorem web_sessions_leave_tcp_alone (s s' : WsServer) (evs : list WsEvent) :
  wsRun rangeClients rangeWsClients s evs = Some s' ->
  clients (shared (wsState s')) = clients (shared (wsState s))
  /\ (forall k, received k (shared (wsState s'))
                = received k (shared (wsState s)))
  /\ allowedUsernames (shared (wsState s'))
     = allowedUsernames (shared (wsState s))
  /\ groups (shared (wsState s')) = groups (shared (wsState s))
  /\ wsClients (wsState s') = wsClients (wsState s).
Proof.
  intros Hrun.
  assert (wsFrameInv (wsState s) (wsState s')) as (Hc & Hw & Ha & Hg & Hws).
  { revert s Hrun. induction evs as [|e evs IH]; intros s; cbn [wsRun].
    - by intros [= <-].
    - destruct (wsStep rangeClients rangeWsClients s e) as [s1|] eqn:E;
        [|done].
      intros Hrun. eapply wsFrameInv_trans; [|by apply IH].
      by eapply wsStep_frame. }
  repeat split; try done. intros k. unfold received. by rewrite Hw.
Qed.

(** X20. a web session is written to only by its own handler.  As long
    as [wsClients] is empty, as line 763 makes it, a step of the
    session of one connection adds no frame for any other connection:
    join notices, messages and departure notices of web users reach no
    web session. *)
Theorem web_session_hears_nobody (s s' : WsServer) (e : WsEvent) (k : nat) :
  wsClients (wsState s) = ∅ ->
  wsStep rangeClients rangeWsClients s e = Some s' ->
  wsEventConn e <> k ->
  wsReceived k (wsState s') = wsReceived k (wsState s).
Proof.
  intros He Hstep Hk.
  destruct (wsStep_ownFrames s s' e He Hstep) as [l Hl].
  unfold wsReceived. rewrite Hl, deliveredTo_app.
  rewrite (deliveredTo_others k (map (fun m => (wsEventConn e, m)) l)).
  - by rewrite app_nil_r.
  - apply Forall_fmap, Forall_forall. intros x _. cbn. done.
Qed.

Lemma wsAlreadyExists_true (u : string) (st : State) :
  wsAlreadyExists rangeClients u st = true <->
  exists k ci, clients st !! k = Some ci /\ active ci = true
               /\ username ci = u.
Proof.
  unfold wsAlreadyExists. rewrite existsb_exists. split.
  - intros ([k ci] & Hin & Hb). exists k, ci.
    apply list_elem_of_In, (in_range rangeClients rangeClients_perm) in Hin.
    cbn in Hb. apply andb_true_iff in Hb as [Ha Hu%bool_decide_eq_true].
    done.
  - intros (k & ci & Hk & Ha & Hu). exists (k, ci). split.
    + by apply list_elem_of_In, (in_range rangeClients rangeClients_perm).
    + cbn. by rewrite Ha, bool_decide_eq_true_2.
Qed.

(** The checks of the web handshake, as a predicate of what they read. *)
Lemma web_username_Some (c : nat) (p u : string) (ws ws' : WsState) :
  handleWebSocketConnection_username rangeClients c p ws = (ws', Some u)
  <-> ws' = ws /\ u = TrimSpace p /\ u <> ""
      /\ String.length u < USERNAME_MAX_LEN
      /\ isUsernameAllowed (shared ws) u = true
      /\ wsAlreadyExists rangeClients u (shared ws) = false.
Proof.
  unfold handleWebSocketConnection_username. split.
  - repeat case_bool_decide; try done.
    destruct (isUsernameAllowed (shared ws) (TrimSpace p)) eqn:Ea; [|done].
    destruct (wsAlreadyExists rangeClients (TrimSpace p) (shared ws)) eqn:Ee;
      [done|].
    cbn [negb]. intros [= <- <-]. repeat split; try done. lia.
  - intros (-> & -> & Hne & Hlen & Ha & He).
    rewrite bool_decide_eq_false_2 by done.
    rewrite bool_decide_eq_false_2 by lia. by rewrite Ha, He.
Qed.

Lemma alreadyExists_web (c : nat) (u : string) (st : State) :
  wsAlreadyExists rangeClients u st = false ->
  alreadyExists rangeClients c u st = false.
Proof.
  intros Hw. destruct (alreadyExists rangeClients c u st) eqn:E; [|done].
  apply (alreadyExists_true rangeClients rangeClients_perm) in E
    as (k & ci & Hk & Ha & Hu & _).
  rewrite <- Hw. symmetry. apply wsAlreadyExists_true. by exists k, ci.
Qed.

Lemma wsRun_frame (s s' : WsServer) (evs : list WsEvent) :
  wsRun rangeClients rangeWsClients s evs = Some s' ->
  wsFrameInv (wsState s) (wsState s').
Proof.
  revert s. induction evs as [|e evs IH]; intros s; cbn [wsRun].
  - by intros [= <-].
  - destruct (wsStep rangeClients rangeWsClients s e) as [s1|] eqn:E; [|done].
    intros Hrun. eapply wsFrameInv_trans; [|by apply IH].
    by eapply wsStep_frame.
Qed.

(** X21. a username is not reserved by a web session.  Once a web session
    has passed the checks under a name, then whatever the web sessions
    do next, the same username message passes the checks again for
    another web connection, and the same line passes those of the TCP
    handshake: any number of web sessions, and a TCP session besides,
    can hold one name at the same time. *)
Theorem web_names_not_reserved (s0 s1 s2 : WsServer) (evs : list WsEvent)
    (c c' : nat) (p u : string) (client : ClientInfo) :
  wsStep rangeClients rangeWsClients s0 (WsUsername c (MessageText p))
  = Some s1 ->
  wsPcs s1 !! c = Some (WsChecked u) ->
  wsRun rangeClients rangeWsClients s1 evs = Some s2 ->
  wsPcs s2 !! c' = Some WsAwaitingUsername ->
  wsStep rangeClients rangeWsClients s2 (WsUsername c' (MessageText p))
  = Some (wsGoto c' (WsChecked u) (wsState s2) s2)
  /\ handleConnection_username rangeClients client p (shared (wsState s2))
     = (shared (wsState s2), Some u).
Proof.
  intros Hstep Hpc Hrun Hpc'.
  assert (wsState s1 = wsState s0
          /\ handleWebSocketConnection_username rangeClients c p (wsState s0)
             = (wsState s0, Some u)) as [Hs1 Hchk].
  { revert Hstep Hpc. cbn [wsStep].
    destruct (wsPcs s0 !! c) as [[| | | | |]|]; try done.
    destruct (handleWebSocketConnection_username rangeClients c p (wsState s0))
      as [ws' [u'|]] eqn:E; intros [= <-]; cbn [wsPcs wsGoto wsState];
      rewrite lookup_insert_eq; [|done].
    intros [= ->]. apply web_username_Some in E as E'.
    destruct E' as [-> _]. done. }
  apply web_username_Some in Hchk as (_ & Hu & Hne & Hlen & Ha & He).
  destruct (wsRun_frame s1 s2 evs Hrun) as (Hc & _ & Hal & _).
  rewrite Hs1 in Hc, Hal.
  assert (isUsernameAllowed (shared (wsState s2)) u = true) as Ha2.
  { unfold isUsernameAllowed in *. by rewrite Hal. }
  assert (wsAlreadyExists rangeClients u (shared (wsState s2)) = false)
    as He2.
  { unfold wsAlreadyExists in *. by rewrite Hc. }
  split.
  - cbn [wsStep]. rewrite Hpc'.
    by rewrite (proj2 (web_username_Some c' p u (wsState s2) (wsState s2))).
  - unfold handleConnection_username. rewrite <- Hu.
    rewrite bool_decide_eq_false_2 by done.
    rewrite bool_decide_eq_false_2 by lia. rewrite Ha2. cbn [negb].
    by rewrite (alreadyExists_web (conn client) u _ He2).
Qed.

(** X22. the web handshake sees the TCP sessions.  A username held by an
    active TCP session is refused to a web connection with the reply
    [BAD_USERNAME / Username already in use.], and the handler returns. *)
Theorem web_login_blocked_by_tcp_session (s : WsServer) (c k : nat)
    (ci : ClientInfo) (p : string) :
  wsPcs s !! c = Some WsAwaitingUsername ->
  clients (shared (wsState s)) !! k = Some ci -> active ci = true ->
  username ci = TrimSpace p ->
  username ci <> "" -> String.length (username ci) < USERNAME_MAX_LEN ->
  isUsernameAllowed (shared (wsState s)) (username ci) = true ->
  wsStep rangeClients rangeWsClients s (WsUsername c (MessageText p))
  = Some (wsGoto c (WsReturning (wsClient c "" false))
            (set_wsWire (wsWire (wsState s) ++ [(c, replyInUse)]) (wsState s))
            s).
Proof.
  intros Hpc Hk Hact Hu Hne Hlen Hal. cbn [wsStep]. rewrite Hpc.
  unfold handleWebSocketConnection_username. rewrite <- Hu.
  rewrite bool_decide_eq_false_2 by done.
  rewrite bool_decide_eq_false_2 by lia. rewrite Hal. cbn [negb].
  rewrite (proj2 (wsAlreadyExists_true (username ci) (shared (wsState s))))
    by (by exists k, ci).
  done.
Qed.





End WebFacts.

(** ** Instances of the further properties *)

Section Instances.

Ltac lookup_cases H :=
  apply elem_of_map_to_list in H; vm_compute in H;
  repeat (apply elem_of_cons in H as [H|H]; [injection H as -> ->|]);
  [..|by apply not_elem_of_nil in H].


Lemma demoSpaced_reachable : Reachable map_to_list spaced_users ∅ demoSpaced.
Proof. exists demoSpaced_events. vm_compute. reflexivity. Qed.

Lemma demo3_wellKeyed : wellKeyed (state demo3).
Proof. exact (reachable_wellKeyed _ _ _ _ demo3_reachable). Qed.

Lemma demoAlice_wellKeyed : wellKeyed (state demoAlice).
Proof. exact (reachable_wellKeyed _ _ _ _ demoAlice_reachable). Qed.

Lemma demo3_uniqueActive : uniqueActive (state demo3).
Proof.
  intros k1 k2 c1 c2 H1 H2 A1 A2 Hu.
  lookup_cases H1; lookup_cases H2; done.
Qed.

Lemma demoAlice_uniqueActive : uniqueActive (state demoAlice).
Proof.
  intros k1 k2 c1 c2 H1 H2 A1 A2 Hu.
  lookup_cases H1; lookup_cases H2; done.
Qed.


Lemma wire_lines_terminated_witness :
  HasSuffix ("Welcome, alice!" +:+ NL) NL = true.
Proof.
  apply (wire_lines_terminated map_to_list map_to_list_perm config_users
           config_groups demo3 0 _ demo3_reachable).
  vm_compute. right. left.
Defined.

Lemma config_read_only_witness :
  allowedUsernames (state demo3) = config_users
  /\ groups (state demo3) = config_groups.
Proof.
  exact (config_read_only map_to_list map_to_list_perm config_users config_groups
           demo3 demo3_reachable).
Defined.


Lemma registry_entry_stable_witness :
  let e := EvLine 1 ("hi" +:+ NL) in
  let s' := default demo3 (step map_to_list demo3 e) in
  (forall c, eventConn e <> Some c ->
             clients (state s') !! c = clients (state demo3) !! c)
  /\ (forall c ci, clients (state demo3) !! c = Some ci -> active ci = true ->
        clients (state s') !! c = Some ci
        \/ (e = EvDeferred c /\ clients (state s') !! c = None)).
Proof.
  intros e s'.
  apply (registry_entry_stable map_to_list config_users config_groups
           demo3 s' e demo3_reachable).
  by vm_compute.
Defined.

Lemma broadcast_exactly_once_witness :
  let st' := broadcastMessage map_to_list "hello" (Some 1) (state demo3) in
  (forall k, received k st'
             = received k (state demo3)
               ++ (if isActive (state demo3) k
                      && negb (bool_decide (Some k = Some 1))
                   then [withNewline "hello"] else []))
  /\ (forall k, Some 1 = Some k -> received k st' = received k (state demo3))
  /\ clients st' = clients (state demo3)
  /\ chatHistory st' = chatHistory (state demo3)
  /\ chatLogFileHandler st' = chatLogFileHandler (state demo3).
Proof.
  exact (broadcast_exactly_once map_to_list map_to_list_perm "hello" (Some 1)
           (state demo3) demo3_wellKeyed).
Defined.

Lemma incomplete_command_rejected_witness :
  onlyReply 0 "System: Invalid DM format. Use: PRIVMSG <user> <message>"
    (state demo3)
    (handleConnection_message map_to_list alice ("PRIVMSG bob" +:+ NL)
       (state demo3)).
Proof.
  apply (proj1 (incomplete_command_rejected map_to_list alice
                  ("PRIVMSG bob" +:+ NL) (state demo3)) "bob");
    by vm_compute.
Defined.


Lemma dm_never_reaches_spaced_name_witness :
  received 1 (handleConnection_message map_to_list alice
                ("PRIVMSG ann lee hi" +:+ NL) (state demoSpaced))
  = received 1 (state demoSpaced).
Proof.
  apply (dm_never_reaches_spaced_name map_to_list map_to_list_perm alice
           ("PRIVMSG ann lee hi" +:+ NL) (state demoSpaced) 1
           {| conn := 1; username := "ann lee"; active := true |}
           (reachable_wellKeyed _ _ _ _ demoSpaced_reachable));
    by vm_compute.
Defined.

Lemma group_delivery_witness :
  received 1 (handleConnection_message map_to_list alice
                ("GROUPMSG friends hi" +:+ NL) (state demo3))
  = received 1 (state demo3) ++ ["(#friends from alice): hi" +:+ NL].
Proof.
  pose proof (group_delivery map_to_list map_to_list_perm alice
                ("GROUPMSG friends hi" +:+ NL) "friends" "hi"
                {| name := "friends"; members := ["alice"; "bob"] |}
                (state demo3) demo3_wellKeyed demo3_uniqueActive
                ltac:(by vm_compute) ltac:(done) ltac:(by vm_compute)
                ltac:(done) ltac:(by vm_compute) 1) as H.
  rewrite H. by vm_compute.
Defined.

Lemma username_reusable_witness :
  let st' := handleConnection_deferred map_to_list 0 (state demoAlice) in
  (forall c', ~ usernameInUse c' "alice" st')
  /\ handleConnection_username map_to_list bobPending ("alice" +:+ NL) st'
     = (st', Some "alice").
Proof.
  intros st'.
  destruct (username_reusable map_to_list map_to_list_perm (state demoAlice) 0 alice
              bobPending ("alice" +:+ NL) demoAlice_wellKeyed
              demoAlice_uniqueActive ltac:(by vm_compute) eq_refl)
    as [H1 H2].
  split; [exact H1|].
  apply H2; [by vm_compute|by vm_compute|vm_compute; lia|].
  exists true. by vm_compute.
Defined.

Lemma login_succeeds_witness :
  exists s',
    run map_to_list demoAlice (login 2 "carol") = Some s'
    /\ pcs s' !! 2 = Some InLoop
    /\ received 0 (state s')
       = received 0 (state demoAlice)
         ++ ["System: carol has joined the chat." +:+ NL].
Proof.
  destruct (login_succeeds map_to_list map_to_list_perm config_users config_groups
              demoAlice 2 ("carol" +:+ NL) demoAlice_reachable
              ltac:(by vm_compute) ltac:(by vm_compute)
              ltac:(by vm_compute) ltac:(vm_compute; lia)
              ltac:(eexists; by vm_compute))
    as (s' & Hrun & Hpc & _ & _ & Hothers & _).
  { intros (k & ci & Hk & Ha & Hu & Hc). lookup_cases Hk; done. }
  exists s'. split; [exact Hrun|]. split; [exact Hpc|].
  rewrite (Hothers 0) by lia. by vm_compute.
Defined.

Lemma groups_file_loaded_witness :
  let g := {| name := "friends"; members := ["alice"; "bob"] |} in
  name g = "friends"
  /\ "friends" <> "" /\ String.length "friends" < GROUPNAME_MAX_LEN
  /\ trimmed "friends"
  /\ members g <> []
  /\ Forall (fun m => wellFormedName m /\ trimmed m) (members g).
Proof.
  intros g.
  apply (groups_file_loaded [" friends : alice, bob ,"] zeroState).
  by vm_compute.
Defined.

Lemma active_names_allowed_witness :
  is_Some (config_users !! username alice)
  /\ username alice <> ""
  /\ String.length (username alice) < USERNAME_MAX_LEN
  /\ trimmed (username alice).
Proof.
  apply (active_names_allowed map_to_list map_to_list_perm config_users
           config_groups demo3 0 alice demo3_reachable);
    by vm_compute.
Defined.

Lemma only_listed_users_active_witness :
  exists lines line,
    Some [" alice "; "bob"] = Some lines /\ line ∈ lines
    /\ TrimSpace line = username alice.
Proof.
  apply (only_listed_users_active map_to_list map_to_list_perm
           (Some [" alice "; "bob"]) None (login 0 "alice")
           (default (Start None None)
              (run map_to_list (Start (Some [" alice "; "bob"]) None)
                 (login 0 "alice")))
           0 alice); by vm_compute.
Defined.


Lemma webDemo_run :
  wsRun map_to_list map_to_list (wsInitial (state demoAlice)) webDemo_events
  = Some webDemo.
Proof. by vm_compute. Qed.

Lemma web_sessions_leave_tcp_alone_witness :
  clients (shared (wsState webDemo)) = clients (state demoAlice)
  /\ (forall k, received k (shared (wsState webDemo))
                = received k (state demoAlice))
  /\ allowedUsernames (shared (wsState webDemo))
     = allowedUsernames (state demoAlice)
  /\ groups (shared (wsState webDemo)) = groups (state demoAlice)
  /\ wsClients (wsState webDemo) = ∅.
Proof.
  exact (web_sessions_leave_tcp_alone map_to_list map_to_list
           (wsInitial (state demoAlice)) webDemo webDemo_events webDemo_run).
Defined.

Lemma web_session_hears_nobody_witness :
  let e := WsFrame 0 (MessageText "hi all") in
  let s' := default webDemo (wsStep map_to_list map_to_list webDemo e) in
  wsReceived 1 (wsState s') = wsReceived 1 (wsState webDemo).
Proof.
  intros e s'.
  apply (web_session_hears_nobody map_to_list map_to_list map_to_list_perm
           webDemo s' e 1); by vm_compute.
Defined.

Lemma web_names_not_reserved_witness :
  let s1 := default webPending
              (wsStep map_to_list map_to_list webPending
                 (WsUsername 0 (MessageText "bob"))) in
  wsStep map_to_list map_to_list s1 (WsUsername 1 (MessageText "bob"))
  = Some (wsGoto 1 (WsChecked "bob") (wsState s1) s1)
  /\ handleConnection_username map_to_list bobPending "bob"
       (shared (wsState s1))
     = (shared (wsState s1), Some "bob").
Proof.
  intros s1.
  apply (web_names_not_reserved map_to_list map_to_list_perm map_to_list
           webPending s1 s1 [] 0 1 "bob" "bob" bobPending); by vm_compute.
Defined.

Lemma web_login_blocked_by_tcp_session_witness :
  wsStep map_to_list map_to_list webPending
    (WsUsername 0 (MessageText "alice"))
  = Some (wsGoto 0 (WsReturning (wsClient 0 "" false))
            (set_wsWire (wsWire (wsState webPending) ++ [(0, replyInUse)])
               (wsState webPending))
            webPending).
Proof.
  apply (web_login_blocked_by_tcp_session map_to_list map_to_list_perm map_to_list
           webPending 0 0 alice "alice"); try by vm_compute.
  vm_compute. lia.
Defined.




End Instances.
